(** * Question paper generator: a model of [backend/routes/paperRoutes.js]

    The route [GET /generate] reads every question of the database, groups
    the questions by their marks, draws the sections of a paper at random
    without using a question twice, and reports how many questions each
    section asked for, found and received.

    Two embeddings of the same code are given.  The first one is purely
    functional: arrays are lists, [Math.random] is a stream of draws that the
    functions thread through, the [Set] of used identifiers is a [gset].  The
    second one (module [Heap], further down) keeps the arrays in a store and
    performs the writes of the source one by one; it is proved to compute what
    the functional embedding computes, and it is where the statements about
    what the code leaves untouched live. *)

From stdpp Require Import gmap strings list fin_maps sets.

#[local] Set Warnings "-clear-no-such-hyp".

(** ** Documents of the [Question] collection

    The route reads two fields of a question: [String(q._id)] and
    [Number(q.marks)].  [_id] below is the former, [marks] the latter; [text]
    stands for the rest of the document, which the route passes through. *)

Record Question := {
  _id : string;
  marks : Z;
  text : string
}.

#[global] Instance Question_eq_dec : EqDecision Question.
Proof. solve_decision. Defined.

(** The result of [Question.find().lean()]: the promise is rejected, or it
    resolves to the array of all documents. *)
Inductive query :=
  | Rejected
  | Resolved (allQuestions : list Question).

(** ** A state monad for the effects of the route *)

Definition M (S A : Type) : Type := S → A * S.

#[global] Instance M_ret {S} : MRet (M S) := λ A a s, (a, s).

#[global] Instance M_bind {S} : MBind (M S) :=
  λ A B k m s, let (a, s') := m s in k a s'.

(** ** The random source

    [Math.random()] returns a double [r] with [0 <= r < 1].  Every double is
    a whole number of units of [2^-1074], the smallest positive double, and
    the model keeps a double as this whole number: [double_one] is the
    number 1.  An integer is a double when it has at most 53 significant
    bits, that is, when rounding leaves it as it is. *)

Definition double_one : Z := 2 ^ 1074.

(** Rounding to the nearest double, ties to the even one, of a number of
    units that is not negative.  Below [2^53] units every whole number is a
    double (the subnormal numbers and the first binade).  Above, with
    [s = log2 X - 52], the doubles are the multiples of [2^s] between the
    two that enclose [X]. *)
Definition round53 (X : Z) : Z :=
  if (X <? 2 ^ 53)%Z then X
  else
    let s := (Z.log2 X - 52)%Z in
    let q := (X / 2 ^ s)%Z in
    let rest := (X mod 2 ^ s)%Z in
    let half := (2 ^ (s - 1))%Z in
    if (rest <? half)%Z then (q * 2 ^ s)%Z
    else if (half <? rest)%Z then ((q + 1) * 2 ^ s)%Z
    else ((q + q mod 2) * 2 ^ s)%Z.

(** A double [r] with [0 <= r < 1]. *)
Record unit_double := {
  units : Z;
  units_range :
    (0 <=? units)%Z && (units <? double_one)%Z && (round53 units =? units)%Z
    = true
}.

(** The generator: the draws still to come, and how many were handed out. *)
Record source := {
  draws : nat → unit_double;
  cursor : nat
}.

Definition Math_random : M source unit_double :=
  λ g, (draws g (cursor g), {| draws := draws g; cursor := S (cursor g) |}).

(** [Math.floor(r * k)] for an integer [k >= 0], itself a double: the
    product of the two doubles is their exact product rounded to the nearest
    double, and [Math.floor] of a double that is not negative is the number
    of whole ones in it. *)
Definition floor_times (r : unit_double) (k : nat) : nat :=
  Z.to_nat (round53 (units r * Z.of_nat k) / double_one).

(** ** [shuffleArray] and [pickRandom] *)

Section Arrays.
Context {A : Type}.

(** [[arr[i], arr[j]] = [arr[j], arr[i]]]: both elements are read, then
    [arr[i]] and [arr[j]] are written in this order.  The loop only calls
    it with [j <= i < arr.length] ([swap_in_range] below), so the case of
    an index outside the array is never taken there; it returns the array
    as it is. *)
Definition swap (arr : list A) (i j : nat) : list A :=
  match arr !! j, arr !! i with
  | Some aj, Some ai => <[j := ai]> (<[i := aj]> arr)
  | _, _ => arr
  end.

(** The body of [for (let i = arr.length - 1; i > 0; i--)], from [i] down
    to [1]. *)
Fixpoint shuffle_loop (i : nat) (arr : list A) : M source (list A) :=
  match i with
  | O => mret arr
  | S i' =>
      r ← Math_random;
      let j := floor_times r (i + 1) in
      shuffle_loop i' (swap arr i j)
  end.

(** [array.slice()] is a copy; on lists it is the list itself.
    [arr.length - 1] is [-1] for the empty array, for which the loop does
    not run, as for [0]. *)
Definition shuffleArray (array : list A) : M source (list A) :=
  let arr := array in
  shuffle_loop (length arr - 1) arr.

(** [shuffled.slice(0, Math.max(0, n))]. *)
Definition pickRandom (array : list A) (n : Z) : M source (list A) :=
  if bool_decide (length array = 0) then mret []
  else
    shuffled ← shuffleArray array;
    mret (take (Z.to_nat (Z.max 0 n)) shuffled).
End Arrays.

(** ** The route *)

(** [qByMarks]: an object with the three keys [2], [3] and [5]. *)
Definition qByMarks (allQuestions : list Question) : gmap Z (list Question) :=
  {[ 2%Z := filter (λ q, marks q = 2%Z) allQuestions;
     3%Z := filter (λ q, marks q = 3%Z) allQuestions;
     5%Z := filter (λ q, marks q = 5%Z) allQuestions ]}.

(** What [pickUnique] works on: the set [usedIds] of the enclosing handler
    and the random source. *)
Record state := {
  usedIds : gset string;
  random : source
}.

Definition with_random {A} (m : M source A) : M state A :=
  λ s, let (a, g) := m (random s) in
       (a, {| usedIds := usedIds s; random := g |}).

Definition usedIds_add (id : string) : M state unit :=
  λ s, (tt, {| usedIds := usedIds s ∪ {[ id ]}; random := random s |}).

(** [picked.forEach(q => usedIds.add(String(q._id)))]. *)
Fixpoint forEach_add (picked : list Question) : M state unit :=
  match picked with
  | [] => mret tt
  | q :: rest => _ ← usedIds_add (_id q); forEach_add rest
  end.

(** [pool.filter(q => !usedIds.has(String(q._id)))]; the callback only
    reads [usedIds]. *)
Definition filter_unused (pool : list Question) : M state (list Question) :=
  λ s, (filter (λ q, _id q ∉ usedIds s) pool, s).

(** [pickUnique] closes over [qByMarks] and [usedIds]. *)
Definition pickUnique (qByMarks : gmap Z (list Question)) (mark count : Z)
  : M state (list Question) :=
  let pool := default [] (qByMarks !! mark) in
  available ← filter_unused pool;
  picked ← with_random (pickRandom available count);
  _ ← forEach_add picked;
  mret picked.

(** The section definitions, [{ marks: ..., count: ... }]; [need_marks] is
    the field [marks].  The route fixes them ([route_plan]); the body of the
    route is written over any four of them. *)
Record need := { need_marks : Z; count : Z }.

Record plan := {
  sectionA_need : need;
  sectionB_need_part1 : need;
  sectionB_need_part2 : need;
  sectionC_need : need
}.

Definition route_plan : plan := {|
  sectionA_need := {| need_marks := 2; count := 10 |};
  sectionB_need_part1 := {| need_marks := 2; count := 5 |};
  sectionB_need_part2 := {| need_marks := 3; count := 5 |};
  sectionC_need := {| need_marks := 5; count := 7 |}
|}.

Record per_section (T : Type) := {
  of_sectionA : T;
  of_sectionB_part1 : T;
  of_sectionB_part2 : T;
  of_sectionC : T
}.
Arguments of_sectionA {T}.
Arguments of_sectionB_part1 {T}.
Arguments of_sectionB_part2 {T}.
Arguments of_sectionC {T}.

Record per_mark (T : Type) := { mark2 : T; mark3 : T; mark5 : T }.
Arguments mark2 {T}.
Arguments mark3 {T}.
Arguments mark5 {T}.

Record report := {
  wanted : per_section Z;
  available : per_mark nat;
  pickedCounts : per_section nat
}.

(** The paper of the response; [createdAt] and the titles are left out. *)
Record questionPaper := {
  totalQuestions : nat;
  totalMarks : Z;
  sectionA : list Question;
  sectionB_part1 : list Question;
  sectionB_part2 : list Question;
  sectionB : list Question;
  sectionC : list Question;
  paper_report : report
}.

(** [section.reduce((s, q) => s + Number(q.marks || 0), 0)]. *)
Definition sum_marks (section : list Question) : Z :=
  foldl (λ s q, (s + marks q)%Z) 0%Z section.

(** The four calls of [pickUnique], in the order of the source. *)
Definition allocate (p : plan) (qByMarks : gmap Z (list Question))
  : M state (per_section (list Question)) :=
  a ← pickUnique qByMarks (need_marks (sectionA_need p))
        (count (sectionA_need p));
  b1 ← pickUnique qByMarks (need_marks (sectionB_need_part1 p))
         (count (sectionB_need_part1 p));
  b2 ← pickUnique qByMarks (need_marks (sectionB_need_part2 p))
         (count (sectionB_need_part2 p));
  c ← pickUnique qByMarks (need_marks (sectionC_need p))
        (count (sectionC_need p));
  mret {| of_sectionA := a; of_sectionB_part1 := b1;
         of_sectionB_part2 := b2; of_sectionC := c |}.

(** The body of the route after the check for an empty collection: from
    [const qByMarks = ...] to [questionPaper].  [usedIds] starts as
    [new Set()].  The report reads [qByMarks[2].length] and the like; the
    object has these three keys, so the [default] below is never used. *)
Definition assemble (p : plan) (allQuestions : list Question)
  : M source questionPaper :=
  λ g,
    let qByMarks := qByMarks allQuestions in
    let (picks, s) := allocate p qByMarks {| usedIds := ∅; random := g |} in
    let sectionA := of_sectionA picks in
    let sectionB_part1 := of_sectionB_part1 picks in
    let sectionB_part2 := of_sectionB_part2 picks in
    let sectionC := of_sectionC picks in
    let sectionB := sectionB_part1 ++ sectionB_part2 in
    let totalMarksComputed :=
      (sum_marks sectionA + sum_marks sectionB + sum_marks sectionC)%Z in
    let report := {|
      wanted := {|
        of_sectionA := count (sectionA_need p);
        of_sectionB_part1 := count (sectionB_need_part1 p);
        of_sectionB_part2 := count (sectionB_need_part2 p);
        of_sectionC := count (sectionC_need p) |};
      available := {|
        mark2 := length (default [] (qByMarks !! 2%Z));
        mark3 := length (default [] (qByMarks !! 3%Z));
        mark5 := length (default [] (qByMarks !! 5%Z)) |};
      pickedCounts := {|
        of_sectionA := length sectionA;
        of_sectionB_part1 := length sectionB_part1;
        of_sectionB_part2 := length sectionB_part2;
        of_sectionC := length sectionC |}
    |} in
    ({| totalQuestions := length sectionA + length sectionB + length sectionC;
        totalMarks := totalMarksComputed;
        sectionA := sectionA;
        sectionB_part1 := sectionB_part1;
        sectionB_part2 := sectionB_part2;
        sectionB := sectionB;
        sectionC := sectionC;
        paper_report := report |}, random s).

Inductive response :=
  | Status404 (message : string)
  | Status200 (paper : questionPaper)
  | Status500 (message : string).

(** [router.get("/generate", ...)], over the section definitions.  A
    rejected query is what the [catch] of the handler answers; nothing else
    of the body throws. *)
Definition generate_with (p : plan) (found : query) : M source response :=
  match found with
  | Rejected => mret (Status500 "Server error while generating paper.")
  | Resolved allQuestions =>
      if bool_decide (length allQuestions = 0) then
        mret (Status404 "No questions found in database.")
      else
        questionPaper ← assemble p allQuestions;
        mret (Status200 questionPaper)
  end.

(** The route as the source has it. *)
Definition generate : query → M source response := generate_with route_plan.

(** ** Notions used in the statements *)

(** The identifiers of a sequence of questions, as a set. *)
Definition ids (l : list Question) : gset string := list_to_set (_id <$> l).

(** The questions of a bucket that [pickUnique] may still take: those of
    [qByMarks[mark] || []] whose identifier is not in the used-set. *)
Definition candidates (qByMarks : gmap Z (list Question)) (mark : Z)
    (used : gset string) : list Question :=
  filter (λ q, _id q ∉ used) (default [] (qByMarks !! mark)).

(** [allocate] is its four calls of [pickUnique], each on the state the
    call before it left. *)
Definition state_before_B1 (p : plan) qb (s : state) : state :=
  (pickUnique qb (need_marks (sectionA_need p)) (count (sectionA_need p)) s).2.

Definition state_before_B2 (p : plan) qb (s : state) : state :=
  (pickUnique qb (need_marks (sectionB_need_part1 p))
     (count (sectionB_need_part1 p)) (state_before_B1 p qb s)).2.

Definition state_before_C (p : plan) qb (s : state) : state :=
  (pickUnique qb (need_marks (sectionB_need_part2 p))
     (count (sectionB_need_part2 p)) (state_before_B2 p qb s)).2.


(** ** Sample data *)

Definition question (id : string) (m : Z) : Question :=
  {| _id := id; marks := m; text := "" |}.

(** The doubles 0.5 and 0.9. *)
Definition half : unit_double :=
  {| units := 2 ^ 1073; units_range := eq_refl |}.

Definition nine_tenths : unit_double :=
  {| units := 8106479329266893 * 2 ^ 1021; units_range := eq_refl |}.

Definition sample_source : source :=
  {| draws := λ k, if Nat.even k then half else nine_tenths; cursor := 0 |}.

(** The state in which the route starts to allocate: [new Set()]. *)
Definition sample_state : state :=
  {| usedIds := ∅; random := sample_source |}.

(** Twelve questions of 2 marks, three of 3 marks, none of 5 marks. *)
Definition sample_pool : list Question :=
  [ question "a01" 2; question "a02" 2; question "a03" 2; question "a04" 2;
    question "a05" 2; question "a06" 2; question "a07" 2; question "a08" 2;
    question "a09" 2; question "a10" 2; question "a11" 2; question "a12" 2;
    question "b01" 3; question "b02" 3; question "b03" 3 ].

(** ** The index choices of the shuffle

    The draws enter [shuffleArray] through the indices
    [j = Math.floor(Math.random() * (i + 1))] only.  [indices i g] are the
    indices the loop computes from the source [g] when it starts at [i];
    [shuffle_by] is the loop run on given indices; [in_range i js] says that
    [js] is a possible sequence of indices: one [j <= i] for each turn. *)


Fixpoint shuffle_by {A} (js : list nat) (i : nat) (arr : list A) : list A :=
  match i, js with
  | S i', j :: js' => shuffle_by js' i' (swap arr i j)
  | _, _ => arr
  end.


Definition zero : unit_double := {| units := 0; units_range := eq_refl |}.

(** The double of [u] units, for a [u] that is a double in [0, 1). *)
Definition to_double (u : Z) : unit_double :=
  match (0 <=? u)%Z && (u <? double_one)%Z && (round53 u =? u)%Z as b
        return (0 <=? u)%Z && (u <? double_one)%Z && (round53 u =? u)%Z = b
               → unit_double with
  | true => λ H, {| units := u; units_range := H |}
  | false => λ _, zero
  end eq_refl.












(** ** Counts that are negative *)

(** The section definitions with each count [n] replaced by
    [Math.max(0, n)]. *)
Definition clamp (n : need) : need :=
  {| need_marks := need_marks n; count := Z.max 0 (count n) |}.

Definition clamped (p : plan) : plan := {|
  sectionA_need := clamp (sectionA_need p);
  sectionB_need_part1 := clamp (sectionB_need_part1 p);
  sectionB_need_part2 := clamp (sectionB_need_part2 p);
  sectionC_need := clamp (sectionC_need p)
|}.

(** * The same code with its arrays in a store

    Here an array is an address into a store of arrays, [slice] and [filter]
    allocate, and the swap of [shuffleArray] writes two cells of the array it
    works on.  The questions themselves are never written by the route and
    stay values.  An address that is not allocated reads as the empty array;
    the route never holds one. *)

Module Heap.

Abbreviation address := nat (only parsing).

(** The store of arrays, the set [usedIds], the random source. *)
Record state := {
  arrays : list (list Question);
  usedIds : gset string;
  random : source
}.

Definition contents (h : list (list Question)) (a : address)
  : list Question :=
  default [] (h !! a).

(** A new array: array literals, [slice], [filter], spread. *)
Definition new_array (v : list Question) : M state address :=
  λ s, (length (arrays s),
        {| arrays := arrays s ++ [v];
           usedIds := usedIds s; random := random s |}).

Definition read (a : address) : M state (list Question) :=
  λ s, (contents (arrays s) a, s).

(** [a.length] *)
Definition length_of (a : address) : M state nat :=
  v ← read a; mret (length v).

(** [a[i]] *)
Definition get (a : address) (i : nat) : M state (option Question) :=
  v ← read a; mret (v !! i).

(** [a[i] = x], for [i] inside the array. *)
Definition set (a : address) (i : nat) (x : Question) : M state unit :=
  λ s, (tt,
        {| arrays := <[a := <[i := x]> (contents (arrays s) a)]> (arrays s);
           usedIds := usedIds s; random := random s |}).

(** [a.slice()] *)
Definition slice (a : address) : M state address :=
  v ← read a; new_array v.

(** [a.slice(0, n)] for [n >= 0] *)
Definition slice_to (a : address) (n : nat) : M state address :=
  v ← read a; new_array (take n v).

(** [a.filter(q => P q)] for a callback that only reads *)
Definition filter_array (P : Question → Prop) `{!∀ q, Decision (P q)}
    (a : address) : M state address :=
  v ← read a; new_array (filter P v).

Definition Math_random : M state unit_double :=
  λ s, let (r, g) := Math_random (random s) in
       (r, {| arrays := arrays s; usedIds := usedIds s; random := g |}).

Fixpoint shuffle_loop (i : nat) (arr : address) : M state unit :=
  match i with
  | O => mret tt
  | S i' =>
      r ← Math_random;
      let j := floor_times r (i + 1) in
      aj ← get arr j;
      ai ← get arr i;
      _ ← match aj, ai with
          | Some aj, Some ai => _ ← set arr i aj; set arr j ai
          | _, _ => mret tt
          end;
      shuffle_loop i' arr
  end.

Definition shuffleArray (array : address) : M state address :=
  arr ← slice array;
  len ← length_of arr;
  _ ← shuffle_loop (len - 1) arr;
  mret arr.

Definition pickRandom (array : address) (n : Z) : M state address :=
  len ← length_of array;
  if bool_decide (len = 0) then new_array []
  else
    shuffled ← shuffleArray array;
    slice_to shuffled (Z.to_nat (Z.max 0 n)).

(** [const qByMarks = { 2: ..., 3: ..., 5: ... }]: three new arrays; the
    object itself is never assigned to and is kept as a value. *)
Definition qByMarks (allQuestions : address) : M state (gmap Z address) :=
  b2 ← filter_array (λ q, marks q = 2%Z) allQuestions;
  b3 ← filter_array (λ q, marks q = 3%Z) allQuestions;
  b5 ← filter_array (λ q, marks q = 5%Z) allQuestions;
  mret ({[ 2%Z := b2; 3%Z := b3; 5%Z := b5 ]} : gmap Z address).

(** [let usedIds = new Set()] *)
Definition new_Set : M state unit :=
  λ s, (tt, {| arrays := arrays s; usedIds := ∅; random := random s |}).

Definition usedIds_add (id : string) : M state unit :=
  λ s, (tt, {| arrays := arrays s; usedIds := usedIds s ∪ {[ id ]};
               random := random s |}).

Fixpoint forEach_add (picked : list Question) : M state unit :=
  match picked with
  | [] => mret tt
  | q :: rest => _ ← usedIds_add (_id q); forEach_add rest
  end.

Definition filter_unused (pool : address) : M state address :=
  λ s, filter_array (λ q, _id q ∉ usedIds s) pool s.

Definition pickUnique (qByMarks : gmap Z address) (mark count : Z)
  : M state address :=
  pool ← match qByMarks !! mark with
         | Some pool => mret pool
         | None => new_array []
         end;
  available ← filter_unused pool;
  picked ← pickRandom available count;
  v ← read picked;
  _ ← forEach_add v;
  mret picked.

Definition allocate (p : plan) (qByMarks : gmap Z address)
  : M state (per_section address) :=
  a ← pickUnique qByMarks (need_marks (sectionA_need p))
        (count (sectionA_need p));
  b1 ← pickUnique qByMarks (need_marks (sectionB_need_part1 p))
         (count (sectionB_need_part1 p));
  b2 ← pickUnique qByMarks (need_marks (sectionB_need_part2 p))
         (count (sectionB_need_part2 p));
  c ← pickUnique qByMarks (need_marks (sectionC_need p))
        (count (sectionC_need p));
  mret {| of_sectionA := a; of_sectionB_part1 := b1;
          of_sectionB_part2 := b2; of_sectionC := c |}.

(** [qByMarks[k].length]; the three keys read are the keys of the object. *)
Definition bucket_length (qByMarks : gmap Z address) (k : Z) : M state nat :=
  match qByMarks !! k with
  | Some bucket => length_of bucket
  | None => mret 0
  end.

(** The body of the route after the check for an empty collection.  The
    paper returned holds the arrays as [res.json] finds them at the end. *)
Definition assemble (p : plan) (allQuestions : address)
  : M state questionPaper :=
  qByMarks ← qByMarks allQuestions;
  _ ← new_Set;
  picks ← allocate p qByMarks;
  b1 ← read (of_sectionB_part1 picks);
  b2 ← read (of_sectionB_part2 picks);
  sectionB ← new_array (b1 ++ b2);
  sA ← read (of_sectionA picks);
  sB ← read sectionB;
  sC ← read (of_sectionC picks);
  let totalMarksComputed := (sum_marks sA + sum_marks sB + sum_marks sC)%Z in
  available2 ← bucket_length qByMarks 2;
  available3 ← bucket_length qByMarks 3;
  available5 ← bucket_length qByMarks 5;
  lenA ← length_of (of_sectionA picks);
  lenB1 ← length_of (of_sectionB_part1 picks);
  lenB2 ← length_of (of_sectionB_part2 picks);
  lenC ← length_of (of_sectionC picks);
  lenB ← length_of sectionB;
  let report := {|
    wanted := {|
      of_sectionA := count (sectionA_need p);
      of_sectionB_part1 := count (sectionB_need_part1 p);
      of_sectionB_part2 := count (sectionB_need_part2 p);
      of_sectionC := count (sectionC_need p) |};
    available := {|
      mark2 := available2; mark3 := available3; mark5 := available5 |};
    pickedCounts := {|
      of_sectionA := lenA; of_sectionB_part1 := lenB1;
      of_sectionB_part2 := lenB2; of_sectionC := lenC |}
  |} in
  outA ← read (of_sectionA picks);
  outB1 ← read (of_sectionB_part1 picks);
  outB2 ← read (of_sectionB_part2 picks);
  outB ← read sectionB;
  outC ← read (of_sectionC picks);
  mret {| totalQuestions := lenA + lenB + lenC;
          totalMarks := totalMarksComputed;
          sectionA := outA;
          sectionB_part1 := outB1;
          sectionB_part2 := outB2;
          sectionB := outB;
          sectionC := outC;
          paper_report := report |}.

Definition generate_with (p : plan) (found : option address)
  : M state response :=
  match found with
  | None => mret (Status500 "Server error while generating paper.")
  | Some allQuestions =>
      len ← length_of allQuestions;
      if bool_decide (len = 0) then
        mret (Status404 "No questions found in database.")
      else
        questionPaper ← assemble p allQuestions;
        mret (Status200 questionPaper)
  end.

Definition generate : option address → M state response :=
  generate_with route_plan.

End Heap.

(** The functional state a store state stands for. *)
Definition abstract (s : Heap.state) : state :=
  {| usedIds := Heap.usedIds s; random := Heap.random s |}.

(** The store of a route that has just read [allQuestions] into its first
    array. *)
Definition store_of (allQuestions : list Question) (g : source)
  : Heap.state :=
  {| Heap.arrays := [allQuestions]; Heap.usedIds := ∅; Heap.random := g |}.

(** A computation only adds arrays to the store when the store it starts
    from is a prefix of the store it ends with: every array that was there
    is there still, cell for cell. *)
Definition grows {A} (m : M Heap.state A) : Prop :=
  ∀ s, Heap.arrays s `prefix_of` Heap.arrays (m s).2.

(** [returns s r v t]: from the store state [s] the computation ended in
    [r] with a new array that holds [v], no array of [s] changed, and the
    set [usedIds] and the random source are those of [t]. *)
Definition returns (s : Heap.state) (r : nat * Heap.state)
    (v : list Question) (t : state) : Prop :=
  Heap.arrays s `prefix_of` Heap.arrays r.2 ∧
  length (Heap.arrays s) ≤ r.1 < length (Heap.arrays r.2) ∧
  Heap.contents (Heap.arrays r.2) r.1 = v ∧
  abstract r.2 = t.

(** The addresses of a bucket map are allocated in a store. *)
Definition allocated (qb : gmap Z nat) (h : list (list Question)) : Prop :=
  ∀ k a, qb !! k = Some a → a < length h.

(** ** The body of the response

    [questionPaper] as the route builds it for [res.json]: [meta], the three
    sections with their titles and [marksEach], and the report.  [createdAt]
    is the time of the call and is left out. *)

Record part := {
  title : string;
  marksEach : Z;
  questions : list Question
}.

(** Section B has its two parts and the questions of both; it has no
    [marksEach] of its own. *)
Record mixed_section := {
  mixed_title : string;
  parts : list part;
  mixed_questions : list Question
}.

Record sections := {
  A : part;
  B : mixed_section;
  C : part
}.

Record meta := {
  meta_totalQuestions : nat;
  meta_totalMarks : Z;
  note : string
}.

Record body := {
  body_meta : meta;
  body_sections : sections;
  body_report : report
}.

Definition body_of (paper : questionPaper) : body := {|
  body_meta := {|
    meta_totalQuestions := totalQuestions paper;
    meta_totalMarks := totalMarks paper;
    note := "Questions picked randomly across all teachers. If DB had insufficient questions of a marks value, fewer questions were picked."
  |};
  body_sections := {|
    A := {| title := "Section A – 2 marks each";
            marksEach := 2;
            questions := sectionA paper |};
    B := {| mixed_title := "Section B – mix (2 marks & 3 marks)";
            parts := [
              {| title := "Part 1 (2 marks each)";
                 marksEach := 2;
                 questions := sectionB_part1 paper |};
              {| title := "Part 2 (3 marks each)";
                 marksEach := 3;
                 questions := sectionB_part2 paper |} ];
            mixed_questions := sectionB paper |};
    C := {| title := "Section C – 5 marks each";
            marksEach := 5;
            questions := sectionC paper |}
  |};
  body_report := paper_report paper
|}.

(** What [res.status(...).json(...)] sends: the status and, for 200, the
    body above; for 404 and 500, [{ message }]. *)
Definition sent (r : response) : nat * (string + body) :=
  match r with
  | Status404 message => (404, inl message)
  | Status200 paper => (200, inr (body_of paper))
  | Status500 message => (500, inl message)
  end.

(** A collection with enough questions for a whole paper: fifteen of 2
    marks, five of 3 marks, seven of 5 marks. *)
Definition full_pool : list Question :=
  sample_pool ++
  [ question "a13" 2; question "a14" 2; question "a15" 2;
    question "b04" 3; question "b05" 3;
    question "c01" 5; question "c02" 5; question "c03" 5; question "c04" 5;
    question "c05" 5; question "c06" 5; question "c07" 5 ].
(** * Properties of the functional embedding *)

(** ** The random index *)

Section Rounding.
#[local] Open Scope Z_scope.

Lemma double_one_split : double_one = 2 ^ 53 * 2 ^ 1021.
Proof. unfold double_one. by rewrite <- Z.pow_add_r. Qed.

(** Above [2^53] units, [round53 X] is one of the two multiples of [2^s]
    that enclose [X], the upper one only if [X] is at least half way. *)
Lemma round53_above (X : Z) :
  2 ^ 53 ≤ X →
  let s := Z.log2 X - 52 in
  let q := X / 2 ^ s in
  1 ≤ s ∧ 2 ^ 52 ≤ q < 2 ^ 53 ∧ q * 2 ^ s ≤ X ∧
  (round53 X = q * 2 ^ s ∨
   round53 X = (q + 1) * 2 ^ s ∧ 2 ^ (s - 1) ≤ X mod 2 ^ s).
Proof.
  intros HX s q.
  assert (H0 : 0 < X) by (pose proof (Z.pow_pos_nonneg 2 53); lia).
  destruct (Z.log2_spec X H0) as [Hlo Hhi].
  assert (Hlog : 53 ≤ Z.log2 X) by (by apply Z.log2_le_pow2).
  assert (Hs : 1 ≤ s) by (unfold s; lia).
  assert (Hpow : 0 < 2 ^ s) by (apply Z.pow_pos_nonneg; lia).
  assert (Hsplit : 2 ^ Z.log2 X = 2 ^ 52 * 2 ^ s).
  { rewrite <- Z.pow_add_r by lia. f_equal. unfold s. lia. }
  assert (Hsplit' : 2 ^ Z.succ (Z.log2 X) = 2 ^ 53 * 2 ^ s).
  { rewrite <- Z.pow_add_r by lia. f_equal. unfold s. lia. }
  rewrite Hsplit in Hlo. rewrite Hsplit' in Hhi.
  assert (Hq : 2 ^ 52 ≤ q < 2 ^ 53).
  { unfold q. split.
    - apply Z.div_le_lower_bound; [done|lia].
    - apply Z.div_lt_upper_bound; [done|lia]. }
  assert (Hmul : q * 2 ^ s ≤ X).
  { unfold q. rewrite Z.mul_comm. by apply Z.mul_div_le. }
  split; [done|]. split; [done|]. split; [done|].
  unfold round53. rewrite (proj2 (Z.ltb_ge X (2 ^ 53))) by done.
  fold s. fold q.
  destruct (Z.ltb_spec (X mod 2 ^ s) (2 ^ (s - 1))) as [Hr|Hr]; [by left|].
  destruct (Z.ltb_spec (2 ^ (s - 1)) (X mod 2 ^ s)) as [Hr'|Hr'];
    [by right|].
  pose proof (Z.mod_pos_bound q 2 ltac:(lia)) as Hm.
  destruct (decide (q mod 2 = 0)) as [->|Hodd].
  - left. f_equal. lia.
  - right. split; [|done]. f_equal. lia.
Qed.

Lemma round53_nonneg (X : Z) : 0 ≤ X → 0 ≤ round53 X.
Proof.
  intros HX. destruct (decide (X < 2 ^ 53)) as [Hs|Hl].
  - unfold round53. by rewrite (proj2 (Z.ltb_lt _ _) Hs).
  - destruct (round53_above X ltac:(lia)) as (Hs & Hq & _ & [->| [-> _]]);
      apply Z.mul_nonneg_nonneg; try lia;
      apply Z.pow_nonneg; lia.
Qed.

(** Rounding adds at most one part in [2^53]. *)
Lemma round53_upper (X : Z) :
  0 ≤ X → 2 ^ 53 * round53 X ≤ (2 ^ 53 + 1) * X.
Proof.
  intros HX. destruct (decide (X < 2 ^ 53)) as [Hs|Hl].
  - unfold round53. rewrite (proj2 (Z.ltb_lt _ _) Hs). lia.
  - destruct (round53_above X ltac:(lia)) as (Hs & Hq & Hmul & Hr).
    set (s := Z.log2 X - 52) in *. set (q := X / 2 ^ s) in *.
    assert (Hpow : 0 < 2 ^ s) by (apply Z.pow_pos_nonneg; lia).
    destruct Hr as [->|[-> Hhalf]]; [nia|].
    assert (Hdm : X = 2 ^ s * q + X mod 2 ^ s) by (apply Z.div_mod; lia).
    assert (Hh : 2 ^ s = 2 * 2 ^ (s - 1)).
    { rewrite <- (Z.pow_succ_r 2 (s - 1)) by lia. f_equal. lia. }
    (* the error is at most half of [2^s], and [X] is at least [2^52 * 2^s] *)
    assert (He : (q + 1) * 2 ^ s - X ≤ 2 ^ (s - 1)) by nia.
    assert (Hbig : 2 ^ 53 * 2 ^ (s - 1) ≤ X).
    { assert (H53 : 2 ^ 53 = 2 * 2 ^ 52) by (by rewrite <- (Z.pow_succ_r 2 52)).
      nia. }
    nia.
Qed.

Lemma units_bounds (r : unit_double) :
  0 ≤ units r < double_one ∧ round53 (units r) = units r.
Proof.
  pose proof (units_range r) as H.
  apply andb_prop in H as [H H3]. apply andb_prop in H as [H1 H2].
  apply Z.leb_le in H1. apply Z.ltb_lt in H2. apply Z.eqb_eq in H3. done.
Qed.

(** The largest double below one is [1 - 2^-53]. *)
Lemma units_below_one (r : unit_double) :
  units r ≤ double_one - 2 ^ 1021.
Proof.
  destruct (units_bounds r) as [[H0 H1] Hr].
  rewrite double_one_split in *.
  assert (HV : 0 < 2 ^ 1021) by (by apply Z.pow_pos_nonneg).
  assert (H53 : 2 ^ 53 = 2 * 2 ^ 52) by (by rewrite <- (Z.pow_succ_r 2 52)).
  assert (H52 : 0 < 2 ^ 52) by (by apply Z.pow_pos_nonneg).
  assert (H1073 : 2 ^ 1073 = 2 ^ 52 * 2 ^ 1021) by (by rewrite <- Z.pow_add_r).
  destruct (decide (units r < 2 ^ 1073)) as [Hs|Hl]; [nia|].
  assert (Hbig : 2 ^ 53 ≤ units r).
  { etrans; [|apply Z.nlt_ge, Hl]. by apply Z.pow_le_mono_r. }
  destruct (round53_above _ Hbig) as (Hs & Hq & Hmul & Hcase).
  assert (Hlog : Z.log2 (units r) = 1073).
  { apply Z.log2_unique; [lia|]. split; [lia|].
    replace (2 ^ (1073 + 1)) with (2 ^ 53 * 2 ^ 1021)
      by (by rewrite <- Z.pow_add_r). done. }
  rewrite Hlog in *. change (1073 - 52) with 1021 in *.
  set (q := units r / 2 ^ 1021) in *.
  rewrite Hr in Hcase. destruct Hcase as [Hc|[Hc _]]; nia.
Qed.

(** A product of at most [(1 - 1/T) * k], rounded up by at most one part in
    [T], still floors below [k]. *)
Lemma rounded_floor_lt (T V u R k : Z) :
  0 < T → 0 < V → 0 < k → 0 ≤ u ≤ T * V - V → 0 ≤ R →
  T * R ≤ (T + 1) * (u * k) → 0 ≤ R / (T * V) < k.
Proof.
  intros HT HV Hk Hu HR0 HR. split; [apply Z.div_pos; nia|].
  apply Z.div_lt_upper_bound; [nia|].
  assert (H1 : u * k ≤ (T * V - V) * k) by nia.
  assert (H2 : T * R ≤ (T + 1) * ((T * V - V) * k)) by nia.
  assert (H3 : (T + 1) * ((T * V - V) * k) < T * (T * V * k)) by nia.
  nia.
Qed.

(** [Math.floor(Math.random() * k)] is one of [0 .. k-1]. *)
Lemma floor_times_lt (r : unit_double) (k : nat) :
  (0 < k)%nat → (floor_times r k < k)%nat.
Proof.
  intros Hk. unfold floor_times.
  destruct (units_bounds r) as [[H0 _] _].
  pose proof (units_below_one r) as H1.
  assert (HX : 0 ≤ units r * Z.of_nat k) by nia.
  pose proof (round53_nonneg _ HX) as HR0.
  pose proof (round53_upper _ HX) as HR.
  rewrite double_one_split in *.
  assert (HV : 0 < 2 ^ 1021) by (by apply Z.pow_pos_nonneg).
  assert (H53 : 0 < 2 ^ 53) by (by apply Z.pow_pos_nonneg).
  pose proof (rounded_floor_lt (2 ^ 53) (2 ^ 1021) (units r)
    (round53 (units r * Z.of_nat k)) (Z.of_nat k)
    H53 HV ltac:(lia) ltac:(lia) HR0 HR) as [Hlo Hhi].
  lia.
Qed.
End Rounding.

(** ** [swap] and the loop of [shuffleArray] *)

Section ArrayFacts.
Context {A : Type}.
Implicit Types (arr array : list A) (g : source).

(** Writing [x] over an occurrence of [y] trades one for the other. *)
Lemma insert_trade arr k x y :
  arr !! k = Some y → y :: <[k := x]> arr ≡ₚ x :: arr.
Proof.
  intros Hk.
  rewrite <- (take_drop_middle arr k y Hk) at 2.
  rewrite insert_take_drop by (by eapply lookup_lt_Some).
  rewrite <- !Permutation_middle. apply perm_swap.
Qed.

Lemma insert_pair_perm arr i j ai aj :
  arr !! i = Some ai → arr !! j = Some aj →
  <[j := ai]> (<[i := aj]> arr) ≡ₚ arr.
Proof.
  revert i j. induction arr as [|a arr IH]; intros [|i] [|j] Hi Hj;
    simplify_eq/=; try done.
  - by apply insert_trade.
  - by apply insert_trade.
  - f_equiv. by apply IH.
Qed.

Lemma swap_perm arr i j : swap arr i j ≡ₚ arr.
Proof.
  unfold swap. destruct (arr !! j) as [aj|] eqn:Hj; [|done].
  destruct (arr !! i) as [ai|] eqn:Hi; [|done].
  by apply insert_pair_perm.
Qed.

Lemma length_swap arr i j : length (swap arr i j) = length arr.
Proof. apply Permutation_length, swap_perm. Qed.

(** Inside the array the two cells are exchanged, as the source writes. *)
Lemma swap_in_range arr i j :
  i < length arr → j < length arr →
  ∃ ai aj, arr !! i = Some ai ∧ arr !! j = Some aj ∧
           swap arr i j = <[j := ai]> (<[i := aj]> arr).
Proof.
  intros Hi Hj.
  destruct (lookup_lt_is_Some_2 arr i Hi) as [ai Hai].
  destruct (lookup_lt_is_Some_2 arr j Hj) as [aj Haj].
  exists ai, aj. unfold swap. by rewrite Hai, Haj.
Qed.

Lemma shuffle_loop_perm i arr g : (shuffle_loop i arr g).1 ≡ₚ arr.
Proof.
  revert arr g. induction i as [|i IH]; intros arr g; [done|].
  simpl. unfold mbind, M_bind, Math_random. simpl.
  rewrite IH. apply swap_perm.
Qed.

(** Every turn of the loop takes one draw. *)
Lemma shuffle_loop_source i arr g :
  (shuffle_loop i arr g).2 =
    {| draws := draws g; cursor := cursor g + i |}.
Proof.
  revert arr g. induction i as [|i IH]; intros arr [d c]; simpl.
  - unfold mret, M_ret. simpl. f_equal. lia.
  - unfold mbind, M_bind, Math_random. simpl.
    rewrite IH. simpl. f_equal. lia.
Qed.

Lemma shuffleArray_perm array g : (shuffleArray array g).1 ≡ₚ array.
Proof. apply shuffle_loop_perm. Qed.

Lemma shuffleArray_source array g :
  (shuffleArray array g).2 =
    {| draws := draws g; cursor := cursor g + (length array - 1) |}.
Proof. apply shuffle_loop_source. Qed.

(** [pickRandom] returns a prefix of a rearrangement of its argument. *)
Lemma pickRandom_prefix array n g :
  ∃ rest, (pickRandom array n g).1 ++ rest ≡ₚ array.
Proof.
  unfold pickRandom. case_bool_decide as Hlen.
  - exists array. done.
  - unfold mbind, M_bind. destruct (shuffleArray array g) as [sh g'] eqn:Hs.
    simpl. exists (drop (Z.to_nat (Z.max 0 n)) sh).
    rewrite take_drop.
    change sh with (sh, g').1. rewrite <- Hs. apply shuffleArray_perm.
Qed.

Lemma pickRandom_length array n g :
  length (pickRandom array n g).1 =
    Z.to_nat (Z.max 0 n) `min` length array.
Proof.
  unfold pickRandom. case_bool_decide as Hlen.
  - simpl. rewrite Hlen. lia.
  - unfold mbind, M_bind. destruct (shuffleArray array g) as [sh g'] eqn:Hs.
    simpl. rewrite length_take.
    f_equal. change sh with (sh, g').1. rewrite <- Hs.
    apply Permutation_length, shuffleArray_perm.
Qed.

(** [if (!array || !array.length) return []]: no draw is taken. *)
Lemma pickRandom_nil n g : pickRandom (@nil A) n g = ([], g).
Proof. done. Qed.

Lemma pickRandom_draws array n g : draws (pickRandom array n g).2 = draws g.
Proof.
  unfold pickRandom. case_bool_decide; [done|].
  unfold mbind, M_bind.
  pose proof (shuffleArray_source array g) as Hs.
  destruct (shuffleArray array g) as [sh g']. simpl in *. by subst.
Qed.
End ArrayFacts.

(** ** [pickUnique] *)

(** [Math.max(0, n)] is [n] when [n] is not negative. *)
Lemma clamp_min (n : Z) (k : nat) :
  (0 ≤ n)%Z →
  Z.of_nat (Z.to_nat (Z.max 0 n) `min` k) = Z.min n (Z.of_nat k).
Proof. lia. Qed.

Lemma forEach_add_run picked s :
  forEach_add picked s =
    (tt, {| usedIds := usedIds s ∪ ids picked; random := random s |}).
Proof.
  revert s. induction picked as [|q rest IH]; intros [u g]; simpl.
  - unfold mret, M_ret, ids. simpl. by rewrite union_empty_r_L.
  - unfold mbind, M_bind, usedIds_add. simpl. rewrite IH. simpl.
    unfold ids. simpl. by rewrite (assoc_L (∪)).
Qed.

(** [pickUnique] in one step: the candidates are filtered, [pickRandom]
    draws from them, and the identifiers drawn join the used-set. *)
Lemma pickUnique_run qb mark count s :
  pickUnique qb mark count s =
    let r := pickRandom (candidates qb mark (usedIds s)) count (random s) in
    (r.1, {| usedIds := usedIds s ∪ ids r.1; random := r.2 |}).
Proof.
  unfold pickUnique, candidates, mbind, M_bind, filter_unused, with_random.
  simpl. destruct (pickRandom _ count (random s)) as [picked g'].
  rewrite forEach_add_run. done.
Qed.

Lemma pickUnique_used qb mark count s :
  usedIds (pickUnique qb mark count s).2 =
    usedIds s ∪ ids (pickUnique qb mark count s).1.
Proof. by rewrite pickUnique_run. Qed.

Lemma pickUnique_prefix qb mark count s :
  ∃ rest, (pickUnique qb mark count s).1 ++ rest
            ≡ₚ candidates qb mark (usedIds s).
Proof. rewrite pickUnique_run. simpl. apply pickRandom_prefix. Qed.

Lemma pickUnique_length qb mark count s :
  length (pickUnique qb mark count s).1 =
    Z.to_nat (Z.max 0 count) `min` length (candidates qb mark (usedIds s)).
Proof. rewrite pickUnique_run. simpl. apply pickRandom_length. Qed.

Lemma pickUnique_elem qb mark count s q :
  q ∈ (pickUnique qb mark count s).1 →
  q ∈ default [] (qb !! mark) ∧ _id q ∉ usedIds s.
Proof.
  destruct (pickUnique_prefix qb mark count s) as [rest Hp]. intros Hq.
  assert (Hc : q ∈ candidates qb mark (usedIds s)).
  { rewrite <- Hp. apply elem_of_app. by left. }
  unfold candidates in Hc. by apply list_elem_of_filter in Hc as [? ?].
Qed.

(** What [pickUnique] draws is new to the used-set. *)
Lemma pickUnique_fresh qb mark count s :
  ids (pickUnique qb mark count s).1 ## usedIds s.
Proof.
  intros i Hi Hu. unfold ids in Hi.
  apply elem_of_list_to_set, list_elem_of_fmap in Hi as (q & -> & Hq).
  by apply pickUnique_elem in Hq as [_ Hn].
Qed.

Lemma allocate_run p qb s :
  allocate p qb s =
    let rA := pickUnique qb (need_marks (sectionA_need p))
                (count (sectionA_need p)) s in
    let rB1 := pickUnique qb (need_marks (sectionB_need_part1 p))
                 (count (sectionB_need_part1 p)) (state_before_B1 p qb s) in
    let rB2 := pickUnique qb (need_marks (sectionB_need_part2 p))
                 (count (sectionB_need_part2 p)) (state_before_B2 p qb s) in
    let rC := pickUnique qb (need_marks (sectionC_need p))
                (count (sectionC_need p)) (state_before_C p qb s) in
    ({| of_sectionA := rA.1; of_sectionB_part1 := rB1.1;
        of_sectionB_part2 := rB2.1; of_sectionC := rC.1 |}, rC.2).
Proof.
  unfold allocate, state_before_C, state_before_B2, state_before_B1.
  unfold mbind, M_bind.
  destruct (pickUnique qb _ _ s) as [a s1]. simpl.
  destruct (pickUnique qb _ _ s1) as [b1 s2]. simpl.
  destruct (pickUnique qb _ _ s2) as [b2 s3]. simpl.
  destruct (pickUnique qb _ _ s3) as [c s4]. done.
Qed.

(** The used-set grows by what each call delivers. *)
Lemma used_before_B1 p qb s :
  usedIds (state_before_B1 p qb s) =
    usedIds s ∪ ids (of_sectionA (allocate p qb s).1).
Proof. rewrite allocate_run. simpl. apply pickUnique_used. Qed.

Lemma used_before_B2 p qb s :
  usedIds (state_before_B2 p qb s) =
    usedIds (state_before_B1 p qb s)
      ∪ ids (of_sectionB_part1 (allocate p qb s).1).
Proof. rewrite allocate_run. simpl. apply pickUnique_used. Qed.

Lemma used_before_C p qb s :
  usedIds (state_before_C p qb s) =
    usedIds (state_before_B2 p qb s)
      ∪ ids (of_sectionB_part2 (allocate p qb s).1).
Proof. rewrite allocate_run. simpl. apply pickUnique_used. Qed.

(** ** The buckets of [qByMarks] *)

Lemma qByMarks_bucket all k :
  default [] (qByMarks all !! k) =
    if bool_decide (k = 2 ∨ k = 3 ∨ k = 5)%Z
    then filter (λ q, marks q = k) all else [].
Proof.
  unfold qByMarks.
  destruct (decide (k = 2%Z)) as [->|H2]; [by rewrite lookup_insert_eq|].
  rewrite lookup_insert_ne by done.
  destruct (decide (k = 3%Z)) as [->|H3]; [by rewrite lookup_insert_eq|].
  rewrite lookup_insert_ne by done.
  destruct (decide (k = 5%Z)) as [->|H5]; [by rewrite lookup_singleton_eq|].
  rewrite lookup_singleton_ne by done.
  rewrite bool_decide_eq_false_2; [done|]. lia.
Qed.

Lemma qByMarks_bucket_sublist all k :
  default [] (qByMarks all !! k) `sublist_of` all.
Proof.
  rewrite qByMarks_bucket. case_bool_decide.
  - apply sublist_filter.
  - apply sublist_nil_l.
Qed.

(** A call of [pickUnique] on buckets without a repeated identifier
    delivers no identifier twice. *)
Lemma pickUnique_NoDup qb mark count s :
  NoDup (_id <$> default [] (qb !! mark)) →
  NoDup (_id <$> (pickUnique qb mark count s).1).
Proof.
  intros Hnd. destruct (pickUnique_prefix qb mark count s) as [rest Hp].
  assert (Hc : NoDup (_id <$> candidates qb mark (usedIds s))).
  { eapply sublist_NoDup; [exact Hnd|].
    apply fmap_sublist, sublist_filter. }
  rewrite <- Hp, fmap_app in Hc. by apply NoDup_app in Hc as [? _].
Qed.

(** ** The paper and the response *)

Lemma assemble_picks p all g :
  let picks := (allocate p (qByMarks all) {| usedIds := ∅; random := g |}).1 in
  let paper := (assemble p all g).1 in
  sectionA paper = of_sectionA picks ∧
  sectionB_part1 paper = of_sectionB_part1 picks ∧
  sectionB_part2 paper = of_sectionB_part2 picks ∧
  sectionC paper = of_sectionC picks ∧
  sectionB paper = of_sectionB_part1 picks ++ of_sectionB_part2 picks.
Proof.
  unfold assemble. destruct (allocate p (qByMarks all) _) as [picks s].
  by simpl.
Qed.

Lemma generate_with_nonempty p all g :
  all ≠ [] →
  generate_with p (Resolved all) g =
    (Status200 (assemble p all g).1, (assemble p all g).2).
Proof.
  intros Hne. unfold generate_with.
  rewrite bool_decide_eq_false_2 by (by destruct all).
  unfold mbind, M_bind. by destruct (assemble p all g).
Qed.

Lemma assemble_report p all g :
  let paper := (assemble p all g).1 in
  available (paper_report paper) =
    {| mark2 := length (filter (λ q, marks q = 2%Z) all);
       mark3 := length (filter (λ q, marks q = 3%Z) all);
       mark5 := length (filter (λ q, marks q = 5%Z) all) |} ∧
  pickedCounts (paper_report paper) =
    {| of_sectionA := length (sectionA paper);
       of_sectionB_part1 := length (sectionB_part1 paper);
       of_sectionB_part2 := length (sectionB_part2 paper);
       of_sectionC := length (sectionC paper) |} ∧
  wanted (paper_report paper) =
    {| of_sectionA := count (sectionA_need p);
       of_sectionB_part1 := count (sectionB_need_part1 p);
       of_sectionB_part2 := count (sectionB_need_part2 p);
       of_sectionC := count (sectionC_need p) |}.
Proof.
  unfold assemble. destruct (allocate p (qByMarks all) _) as [picks s].
  cbn [fst paper_report available pickedCounts wanted sectionA
       sectionB_part1 sectionB_part2 sectionC].
  by rewrite !qByMarks_bucket.
Qed.

(** ** Counting the candidates of a later request *)

Lemma filter_all {A} (P : A → Prop) `{!∀ x, Decision (P x)} (l : list A) :
  (∀ x, x ∈ l → P x) → filter P l = l.
Proof.
  induction l as [|x l IH]; intros HP; [done|].
  rewrite filter_cons_True by (apply HP; left).
  f_equal. apply IH. intros y Hy. apply HP. by right.
Qed.

Lemma filter_none {A} (P : A → Prop) `{!∀ x, Decision (P x)} (l : list A) :
  (∀ x, x ∈ l → ¬ P x) → filter P l = [].
Proof.
  induction l as [|x l IH]; intros HP; [done|].
  rewrite filter_cons_False by (apply HP; left).
  apply IH. intros y Hy. apply HP. by right.
Qed.

(** In a collection with distinct identifiers a question is known by its
    identifier. *)
Lemma same_id_same_question all q q' :
  NoDup (_id <$> all) → q ∈ all → q' ∈ all → _id q = _id q' → q = q'.
Proof.
  induction all as [|x all IH]; intros Hnd Hq Hq' Hid.
  { by apply elem_of_nil in Hq. }
  rewrite fmap_cons in Hnd. apply NoDup_cons in Hnd as [Hx Hnd].
  apply elem_of_cons in Hq as [->|Hq]; apply elem_of_cons in Hq' as [->|Hq'].
  - done.
  - exfalso. apply Hx. rewrite Hid. apply list_elem_of_fmap. eauto.
  - exfalso. apply Hx. rewrite <- Hid. apply list_elem_of_fmap. eauto.
  - by apply IH.
Qed.

Lemma elem_of_ids q l : q ∈ l → _id q ∈ ids l.
Proof.
  intros Hq. unfold ids. apply elem_of_list_to_set, list_elem_of_fmap. eauto.
Qed.

Lemma elem_of_ids_inv i l : i ∈ ids l → ∃ q, q ∈ l ∧ _id q = i.
Proof.
  unfold ids. intros Hi.
  apply elem_of_list_to_set, list_elem_of_fmap in Hi as (q & -> & Hq). eauto.
Qed.

(** Once [picked] is taken from the candidates of a bucket, the candidates
    that remain are the ones that were not picked. *)
Lemma candidates_after_pick qb mark used picked rest :
  NoDup (_id <$> default [] (qb !! mark)) →
  picked ++ rest ≡ₚ candidates qb mark used →
  candidates qb mark (used ∪ ids picked) ≡ₚ rest.
Proof.
  intros Hnd Hp. unfold candidates in *.
  set (bucket := default [] (qb !! mark)) in *.
  assert (Hnd' : NoDup (_id <$> (picked ++ rest))).
  { rewrite Hp. eapply sublist_NoDup; [exact Hnd|].
    apply fmap_sublist, sublist_filter. }
  rewrite fmap_app in Hnd'. apply NoDup_app in Hnd' as (_ & Hsep & _).
  transitivity (filter (λ q, _id q ∉ ids picked) (picked ++ rest)).
  - rewrite Hp, list_filter_filter.
    erewrite list_filter_iff; [done|].
    intros q. simpl. rewrite not_elem_of_union. tauto.
  - rewrite filter_app, filter_none, filter_all; [done| |].
    + intros q Hq Hin. apply elem_of_ids_inv in Hin as (q' & Hq' & Hid).
      apply (Hsep (_id q')).
      * apply list_elem_of_fmap. eauto.
      * rewrite Hid. apply list_elem_of_fmap. eauto.
    + intros q Hq Hn. apply Hn. by apply elem_of_ids.
Qed.

(** Identifiers delivered from one bucket of [qByMarks] exclude nothing
    from another bucket when the identifiers of the collection are
    distinct. *)
Lemma candidates_other_bucket all mark used :
  NoDup (_id <$> all) →
  (∀ i, i ∈ used → ∃ q, q ∈ all ∧ _id q = i ∧ marks q ≠ mark) →
  candidates (qByMarks all) mark used = default [] (qByMarks all !! mark).
Proof.
  intros Hnd Hused. unfold candidates. apply filter_all.
  intros q Hq Hin. destruct (Hused _ Hin) as (q' & Hq' & Hid & Hm).
  assert (Hall : q ∈ all).
  { eapply elem_of_sublist; [exact Hq|apply qByMarks_bucket_sublist]. }
  assert (q' = q) by (by eapply same_id_same_question). subst q'.
  rewrite qByMarks_bucket in Hq. case_bool_decide.
  - by apply list_elem_of_filter in Hq as [? _].
  - by apply elem_of_nil in Hq.
Qed.

(** ** Counts that are negative *)

(** [pickRandom] reads its count through [Math.max(0, n)] only. *)
Lemma pickRandom_clamp {A} (array : list A) (n : Z) (g : source) :
  pickRandom array n g = pickRandom array (Z.max 0 n) g.
Proof.
  unfold pickRandom.
  by replace (Z.max 0 (Z.max 0 n)) with (Z.max 0 n) by lia.
Qed.

(** Whatever the count, [pickRandom] takes the draws of the shuffle of its
    array. *)
Lemma pickRandom_cursor {A} (array : list A) (n : Z) (g : source) :
  cursor (pickRandom array n g).2 = cursor g + (length array - 1).
Proof.
  unfold pickRandom. case_bool_decide as Hlen.
  - simpl. rewrite Hlen. lia.
  - unfold mbind, M_bind.
    pose proof (shuffleArray_source array g) as Hs.
    destruct (shuffleArray array g) as [sh g']. simpl in *. by subst.
Qed.

Lemma pickUnique_clamp qb mark count s :
  pickUnique qb mark count s = pickUnique qb mark (Z.max 0 count) s.
Proof. by rewrite !pickUnique_run, <- pickRandom_clamp. Qed.

Lemma pickUnique_cursor qb mark count s :
  cursor (random (pickUnique qb mark count s).2) =
    cursor (random s) + (length (candidates qb mark (usedIds s)) - 1).
Proof. rewrite pickUnique_run. simpl. apply pickRandom_cursor. Qed.

(** A call that delivers nothing leaves the used-set as it is. *)
Lemma pickUnique_nothing qb mark count s :
  (pickUnique qb mark count s).1 = [] →
  usedIds (pickUnique qb mark count s).2 = usedIds s.
Proof.
  intros Hnil. rewrite pickUnique_used, Hnil. unfold ids. simpl.
  by rewrite union_empty_r_L.
Qed.

Lemma state_before_B1_clamped p qb s :
  state_before_B1 (clamped p) qb s = state_before_B1 p qb s.
Proof. unfold state_before_B1. simpl. by rewrite <- pickUnique_clamp. Qed.

Lemma state_before_B2_clamped p qb s :
  state_before_B2 (clamped p) qb s = state_before_B2 p qb s.
Proof.
  unfold state_before_B2. simpl.
  by rewrite <- pickUnique_clamp, state_before_B1_clamped.
Qed.

Lemma state_before_C_clamped p qb s :
  state_before_C (clamped p) qb s = state_before_C p qb s.
Proof.
  unfold state_before_C. simpl.
  by rewrite <- pickUnique_clamp, state_before_B2_clamped.
Qed.

(** An allocation run reads the counts through [Math.max(0, n)] only. *)
Lemma allocate_clamped p qb s : allocate p qb s = allocate (clamped p) qb s.
Proof.
  rewrite !allocate_run. cbv zeta.
  rewrite state_before_B1_clamped, state_before_B2_clamped,
    state_before_C_clamped.
  simpl. by rewrite <- !pickUnique_clamp.
Qed.

Lemma pickUnique_length_clamped qb mark count s :
  Z.of_nat (length (pickUnique qb mark count s).1) =
    Z.min (Z.max 0 count)
      (Z.of_nat (length (candidates qb mark (usedIds s)))).
Proof. rewrite pickUnique_length. lia. Qed.
(** ** Draws that give a chosen index *)

Section Reach.
#[local] Open Scope Z_scope.

(** A multiple [m * 2^e] with [m < 2^53] is a double. *)
Lemma round53_multiple (m e : Z) :
  0 ≤ m < 2 ^ 53 → 0 ≤ e → round53 (m * 2 ^ e) = m * 2 ^ e.
Proof.
  intros Hm He. unfold round53.
  destruct (Z.ltb_spec (m * 2 ^ e) (2 ^ 53)) as [|Hbig]; [done|].
  assert (He2 : 0 < 2 ^ e) by (by apply Z.pow_pos_nonneg).
  assert (Hm0 : 0 < m) by nia.
  rewrite Z.log2_mul_pow2 by lia.
  assert (Hlog : Z.log2 m < 53) by (apply Z.log2_lt_pow2; lia).
  pose proof (Z.log2_nonneg m) as Hlog0.
  destruct (round53_above _ Hbig) as (Hs & _).
  rewrite Z.log2_mul_pow2 in Hs by lia.
  set (s := e + Z.log2 m - 52) in *.
  assert (Hs2 : 0 < 2 ^ s) by (apply Z.pow_pos_nonneg; lia).
  assert (Hsplit : m * 2 ^ e = m * 2 ^ (e - s) * 2 ^ s).
  { rewrite <- Z.mul_assoc, <- Z.pow_add_r by lia. do 2 f_equal. lia. }
  assert (Hmod : (m * 2 ^ e) mod 2 ^ s = 0).
  { rewrite Hsplit. apply Z.mod_mul. lia. }
  assert (Hdiv : m * 2 ^ e / 2 ^ s = m * 2 ^ (e - s)).
  { rewrite Hsplit at 1. apply Z.div_mul. lia. }
  assert (Hh : 0 < 2 ^ (s - 1)) by (apply Z.pow_pos_nonneg; lia).
  cbv zeta. rewrite Hmod, Hdiv.
  rewrite (proj2 (Z.ltb_lt 0 (2 ^ (s - 1)))) by done. by rewrite <- Hsplit.
Qed.

Lemma units_to_double (u : Z) :
  0 ≤ u < double_one → round53 u = u → units (to_double u) = u.
Proof.
  intros [H0 H1] Hr. unfold to_double.
  assert (Hb : (0 <=? u) && (u <? double_one) && (round53 u =? u) = true).
  { rewrite !andb_true_iff. split; [split|].
    - by apply Z.leb_le.
    - by apply Z.ltb_lt.
    - by apply Z.eqb_eq. }
  generalize (eq_refl ((0 <=? u) && (u <? double_one) && (round53 u =? u))).
  generalize ((0 <=? u) && (u <? double_one) && (round53 u =? u)) at 2 3.
  intros b Heq. destruct b; [done|congruence].
Qed.




(** The product is rounded before it is floored: the double just below
    [2/3], times 3, is the double 2, although the exact product is less. *)
Lemma floor_times_of_rounded_product :
  units (to_double (6004799503160661 * 2 ^ 1021)) * 3 < 2 * double_one ∧
  floor_times (to_double (6004799503160661 * 2 ^ 1021)) 3 = 2%nat.
Proof. split; [vm_compute; reflexivity|vm_compute; reflexivity]. Qed.

End Reach.

(** ** The shuffle as a function of its index choices *)





Section Choices.
Context {A : Type}.
Implicit Types (arr p : list A) (js : list nat).

Lemma length_shuffle_by js i arr : length (shuffle_by js i arr) = length arr.
Proof.
  revert js arr. induction i as [|i IH]; intros [|j js] arr; try done.
  simpl. rewrite IH. apply length_swap.
Qed.




End Choices.

Section Bijection.
Context {A : Type}.
Implicit Types (arr p : list A) (js : list nat).




End Bijection.





(** ** Counting the index choices *)





(** ** Counting equally likely sources *)

Section Counting.
Context {X B : Type} `{EqDecision B}.
Implicit Types (f : X → B) (G : list X) (L : list B).



End Counting.

(** ** The arrangements among equally likely sources *)

Section Likelihood.
Context {A : Type} `{EqDecision A}.
Implicit Types (array p : list A) (G : list source).




End Likelihood.

(** ** Families of sources *)




(** The members of [doubles53] are the doubles [m / 2^53]. *)
Lemma units_doubles53 (m : Z) :
  (0 ≤ m < 2 ^ 53)%Z →
  units (to_double (m * 2 ^ 1021)) = (m * 2 ^ 1021)%Z.
Proof.
  intros Hm. apply units_to_double; [|by apply round53_multiple].
  rewrite double_one_split.
  assert (0 < 2 ^ 1021)%Z by (by apply Z.pow_pos_nonneg). nia.
Qed.





(** * The store embedding: what it computes and what it leaves alone *)

Lemma contents_lookup h a v : h !! a = Some v → Heap.contents h a = v.
Proof. unfold Heap.contents. by intros ->. Qed.

Lemma contents_prefix h h' a :
  h `prefix_of` h' → a < length h → Heap.contents h' a = Heap.contents h a.
Proof.
  intros Hp Ha. unfold Heap.contents.
  by rewrite (prefix_lookup_lt h h' a Ha Hp).
Qed.

Lemma contents_new h v : Heap.contents (h ++ [v]) (length h) = v.
Proof. unfold Heap.contents. by rewrite list_lookup_middle. Qed.

(** ** The loop writes the array it is given, as [shuffle_loop] rearranges
    the list *)
Lemma heap_shuffle_loop_run i arr s v :
  Heap.arrays s !! arr = Some v → i ≤ length v - 1 →
  Heap.shuffle_loop i arr s =
    (tt, {| Heap.arrays :=
              <[arr := (shuffle_loop i v (Heap.random s)).1]> (Heap.arrays s);
            Heap.usedIds := Heap.usedIds s;
            Heap.random := (shuffle_loop i v (Heap.random s)).2 |}).
Proof.
  revert s v. induction i as [|i IH]; intros [h u g] v Hv Hi; simpl in Hv.
  - cbn. by rewrite list_insert_id.
  - assert (Harr : arr < length h) by (by eapply lookup_lt_Some).
    cbn [Heap.shuffle_loop shuffle_loop].
    unfold mbind, M_bind, Heap.Math_random, Math_random.
    cbn [Heap.random Heap.arrays Heap.usedIds fst snd].
    set (j := floor_times (draws g (cursor g)) (S i + 1)).
    assert (Hj : j < S i + 1) by (apply floor_times_lt; lia).
    unfold Heap.get, Heap.read, mbind, M_bind, mret, M_ret.
    cbn [Heap.arrays]. rewrite (contents_lookup h arr v Hv).
    destruct (swap_in_range v (S i) j) as (ai & aj & Hai & Haj & Hsw);
      [lia..|].
    rewrite Haj, Hai. unfold Heap.set.
    cbn [Heap.arrays Heap.usedIds Heap.random].
    rewrite (contents_lookup h arr v Hv).
    rewrite (contents_lookup (<[arr := _]> h) arr (<[S i := aj]> v))
      by (by apply list_lookup_insert_eq).
    rewrite list_insert_insert_eq, <- Hsw.
    rewrite (IH _ (swap v (S i) j)); cbn [Heap.arrays Heap.usedIds Heap.random].
    + by rewrite list_insert_insert_eq.
    + by apply list_lookup_insert_eq.
    + rewrite length_swap. lia.
Qed.

Lemma heap_shuffleArray_run array s :
  let v := Heap.contents (Heap.arrays s) array in
  Heap.shuffleArray array s =
    (length (Heap.arrays s),
     {| Heap.arrays :=
          Heap.arrays s ++ [(shuffleArray v (Heap.random s)).1];
        Heap.usedIds := Heap.usedIds s;
        Heap.random := (shuffleArray v (Heap.random s)).2 |}).
Proof.
  intros v. destruct s as [h u g]. unfold Heap.shuffleArray.
  unfold mbind, M_bind, Heap.slice, Heap.length_of, Heap.read,
    Heap.new_array, mret, M_ret, mbind, M_bind.
  cbn [Heap.arrays Heap.usedIds Heap.random]. fold v.
  rewrite contents_new.
  rewrite (heap_shuffle_loop_run _ _ _ v);
    cbn [Heap.arrays Heap.usedIds Heap.random].
  - f_equal. unfold shuffleArray. f_equal.
    replace (length h) with (length h + 0) at 1 by lia.
    by rewrite insert_app_r.
  - by rewrite list_lookup_middle.
  - done.
Qed.

(** ** Computations that only add arrays *)

Create HintDb grows.

Lemma grows_mret {A} (a : A) : grows (mret a).
Proof. by intros s. Qed.

Lemma grows_bind {A B} (m : M Heap.state A) (k : A → M Heap.state B) :
  grows m → (∀ a, grows (k a)) → grows (m ≫= k).
Proof.
  intros Hm Hk s. unfold mbind, M_bind.
  specialize (Hm s). destruct (m s) as [a s']. simpl in Hm.
  etrans; [exact Hm|apply Hk].
Qed.

Lemma grows_new_array v : grows (Heap.new_array v).
Proof. intros s. simpl. by apply prefix_app_r. Qed.

Lemma grows_read a : grows (Heap.read a).
Proof. by intros s. Qed.

Lemma grows_Math_random : grows Heap.Math_random.
Proof. by intros s. Qed.

Lemma grows_new_Set : grows Heap.new_Set.
Proof. by intros s. Qed.

Lemma grows_usedIds_add id : grows (Heap.usedIds_add id).
Proof. by intros s. Qed.

#[local] Hint Resolve grows_mret grows_new_array grows_read
  grows_Math_random grows_new_Set grows_usedIds_add : grows.
#[local] Hint Extern 2 (grows (_ ≫= _)) =>
  apply grows_bind; [|intros ?] : grows.

Lemma grows_length_of a : grows (Heap.length_of a).
Proof. unfold Heap.length_of. auto with grows. Qed.

Lemma grows_slice_to a n : grows (Heap.slice_to a n).
Proof. unfold Heap.slice_to. auto with grows. Qed.

Lemma grows_filter_array (P : Question → Prop) `{!∀ q, Decision (P q)} a :
  grows (Heap.filter_array P a).
Proof. unfold Heap.filter_array. auto with grows. Qed.

Lemma grows_filter_unused pool : grows (Heap.filter_unused pool).
Proof. intros s. unfold Heap.filter_unused. apply grows_filter_array. Qed.

Lemma grows_forEach_add v : grows (Heap.forEach_add v).
Proof. induction v; simpl; auto with grows. Qed.

(** [shuffleArray] writes, but only the copy it made. *)
Lemma grows_shuffleArray array : grows (Heap.shuffleArray array).
Proof.
  intros s. rewrite heap_shuffleArray_run. simpl. by apply prefix_app_r.
Qed.

#[local] Hint Resolve grows_length_of grows_slice_to grows_filter_array
  grows_filter_unused grows_forEach_add grows_shuffleArray : grows.

Lemma grows_pickRandom array n : grows (Heap.pickRandom array n).
Proof.
  unfold Heap.pickRandom. apply grows_bind; [auto with grows|].
  intros len. case_bool_decide; auto with grows.
Qed.

#[local] Hint Resolve grows_pickRandom : grows.

Lemma grows_pickUnique qb mark count : grows (Heap.pickUnique qb mark count).
Proof.
  unfold Heap.pickUnique. apply grows_bind; [|auto 10 with grows].
  destruct (qb !! mark); auto with grows.
Qed.

#[local] Hint Resolve grows_pickUnique : grows.

Lemma grows_allocate p qb : grows (Heap.allocate p qb).
Proof. unfold Heap.allocate. auto 10 with grows. Qed.

Lemma grows_qByMarks allQuestions : grows (Heap.qByMarks allQuestions).
Proof. unfold Heap.qByMarks. auto 10 with grows. Qed.

Lemma grows_bucket_length qb k : grows (Heap.bucket_length qb k).
Proof. unfold Heap.bucket_length. destruct (qb !! k); auto with grows. Qed.

#[local] Hint Resolve grows_allocate grows_qByMarks grows_bucket_length
  : grows.

Lemma grows_assemble p allQuestions : grows (Heap.assemble p allQuestions).
Proof. unfold Heap.assemble. auto 40 with grows. Qed.

Lemma grows_generate_with p found : grows (Heap.generate_with p found).
Proof.
  unfold Heap.generate_with. destruct found as [allQuestions|];
    [|auto with grows].
  apply grows_bind; [auto with grows|]. intros len.
  pose proof (grows_assemble p allQuestions).
  case_bool_decide; auto with grows.
Qed.

(** ** The store embedding computes what the functional one computes *)

Lemma heap_forEach_add_run v s :
  Heap.forEach_add v s =
    (tt, {| Heap.arrays := Heap.arrays s;
            Heap.usedIds := Heap.usedIds s ∪ ids v;
            Heap.random := Heap.random s |}).
Proof.
  revert s. induction v as [|q rest IH]; intros [h u g]; simpl.
  - unfold mret, M_ret, ids. simpl. by rewrite union_empty_r_L.
  - unfold mbind, M_bind, Heap.usedIds_add. simpl. rewrite IH. simpl.
    unfold ids. simpl. by rewrite (assoc_L (∪)).
Qed.

Lemma heap_pickRandom_run array n s :
  Heap.pickRandom array n s =
    if bool_decide (length (Heap.contents (Heap.arrays s) array) = 0)
    then Heap.new_array [] s
    else
      let r := Heap.shuffleArray array s in
      Heap.slice_to r.1 (Z.to_nat (Z.max 0 n)) r.2.
Proof.
  unfold Heap.pickRandom, Heap.length_of, Heap.read, mbind, M_bind. cbn.
  case_bool_decide; [done|]. by destruct (Heap.shuffleArray array s).
Qed.

Lemma heap_pickRandom_sim array n s :
  let r := pickRandom (Heap.contents (Heap.arrays s) array) n
             (Heap.random s) in
  returns s (Heap.pickRandom array n s) r.1
    {| usedIds := Heap.usedIds s; random := r.2 |}.
Proof.
  rewrite heap_pickRandom_run. destruct s as [h u g].
  cbn [Heap.arrays Heap.usedIds Heap.random].
  set (v := Heap.contents h array). unfold pickRandom.
  case_bool_decide as Hlen.
  - unfold returns. cbn. rewrite length_app, contents_new. cbn.
    repeat split; [by apply prefix_app_r|lia..].
  - rewrite heap_shuffleArray_run.
    cbn [Heap.arrays Heap.usedIds Heap.random fst snd]. fold v.
    unfold mbind, M_bind. destruct (shuffleArray v g) as [sh g'].
    unfold Heap.slice_to, Heap.read, Heap.new_array, mbind, M_bind.
    cbn [Heap.arrays Heap.usedIds Heap.random fst snd].
    rewrite contents_new. unfold returns.
    cbn [Heap.arrays Heap.usedIds Heap.random fst snd abstract].
    rewrite contents_new, !length_app. cbn.
    repeat split; [by do 2 apply prefix_app_r|lia..].
Qed.

Lemma heap_pickUnique_run qb mark count s :
  Heap.pickUnique qb mark count s =
    let r0 := match qb !! mark with
              | Some pool => (pool, s)
              | None => Heap.new_array [] s
              end in
    let r1 := Heap.filter_unused r0.1 r0.2 in
    let r2 := Heap.pickRandom r1.1 count r1.2 in
    (r2.1, (Heap.forEach_add (Heap.contents (Heap.arrays r2.2) r2.1) r2.2).2).
Proof.
  unfold Heap.pickUnique, mbind, M_bind.
  destruct (qb !! mark) as [pool|]; cbn [fst snd mret M_ret].
  - destruct (Heap.filter_unused pool s) as [available s1].
    cbn [fst snd]. destruct (Heap.pickRandom available count s1) as [p s2].
    unfold Heap.read. cbn [fst snd].
    destruct (Heap.forEach_add _ s2) as [[] s3]. reflexivity.
  - destruct (Heap.new_array [] s) as [pool s0]. cbn [fst snd].
    destruct (Heap.filter_unused pool s0) as [available s1].
    cbn [fst snd]. destruct (Heap.pickRandom available count s1) as [p s2].
    unfold Heap.read. cbn [fst snd].
    destruct (Heap.forEach_add _ s2) as [[] s3]. reflexivity.
Qed.

Lemma heap_pickUnique_sim qb mark count s :
  let r := pickUnique (Heap.contents (Heap.arrays s) <$> qb) mark count
             (abstract s) in
  returns s (Heap.pickUnique qb mark count s) r.1 r.2.
Proof.
  intros r. subst r. rewrite pickUnique_run, heap_pickUnique_run.
  cbn [fst snd abstract usedIds random].
  unfold candidates. rewrite lookup_fmap.
  (* the pool *)
  set (r0 := match qb !! mark with
             | Some pool => (pool, s)
             | None => Heap.new_array [] s
             end).
  assert (Hpool :
    Heap.arrays s `prefix_of` Heap.arrays r0.2 ∧
    Heap.usedIds r0.2 = Heap.usedIds s ∧ Heap.random r0.2 = Heap.random s ∧
    Heap.contents (Heap.arrays r0.2) r0.1
      = default [] (Heap.contents (Heap.arrays s) <$> qb !! mark)).
  { subst r0. destruct (qb !! mark) as [a|]; cbn.
    - by repeat split.
    - rewrite contents_new. repeat split. by apply prefix_app_r. }
  destruct r0 as [pool s1]. cbn [fst snd] in *.
  destruct Hpool as (Hp1 & Hu1 & Hg1 & Hc1).
  rewrite <- Hc1, <- Hu1, <- Hg1. clear Hc1 Hu1 Hg1.
  (* the candidates *)
  unfold Heap.filter_unused, Heap.filter_array, Heap.read, Heap.new_array,
    mbind, M_bind.
  cbn [fst snd].
  set (cands := filter (λ q, _id q ∉ Heap.usedIds s1)
                  (Heap.contents (Heap.arrays s1) pool)).
  set (s2 := {| Heap.arrays := Heap.arrays s1 ++ [cands];
                Heap.usedIds := Heap.usedIds s1;
                Heap.random := Heap.random s1 |}).
  (* the draw *)
  pose proof (heap_pickRandom_sim (length (Heap.arrays s1)) count s2) as Hr.
  cbn [s2 Heap.arrays Heap.usedIds Heap.random] in Hr.
  rewrite contents_new in Hr.
  destruct (Heap.pickRandom (length (Heap.arrays s1)) count s2)
    as [picked s3].
  destruct Hr as (Hp3 & Hfresh & Hc3 & Ha3).
  cbn [fst snd] in Hp3, Hfresh, Hc3, Ha3 |- *.
  rewrite Hc3, heap_forEach_add_run.
  unfold returns. cbn [fst snd Heap.arrays abstract Heap.usedIds Heap.random].
  rewrite Hc3. unfold abstract in Ha3. injection Ha3 as Hu3 Hg3.
  rewrite Hu3, Hg3.
  assert (Hp : Heap.arrays s `prefix_of` Heap.arrays s3).
  { etrans; [exact Hp1|]. etrans; [|exact Hp3]. by apply prefix_app_r. }
  repeat split; try done.
  - apply prefix_length in Hp1. unfold s2 in Hfresh.
    cbn [Heap.arrays] in Hfresh. rewrite length_app in Hfresh. lia.
  - lia.
Qed.

Lemma returns_later s r v t h' :
  returns s r v t → Heap.arrays r.2 `prefix_of` h' →
  Heap.contents h' r.1 = v ∧ r.1 < length h'.
Proof.
  intros (_ & [_ Hlt] & Hc & _) Hp. split.
  - by rewrite (contents_prefix _ _ _ Hp Hlt).
  - apply prefix_length in Hp. lia.
Qed.

(** The buckets read the same in a store that has only grown. *)
Lemma buckets_stable qb h h' :
  allocated qb h → h `prefix_of` h' →
  Heap.contents h' <$> qb = Heap.contents h <$> qb.
Proof.
  intros Hv Hp. apply map_fmap_ext. intros k a Hk.
  apply contents_prefix; [done|]. by eapply Hv.
Qed.

Lemma allocated_prefix qb h h' :
  allocated qb h → h `prefix_of` h' → allocated qb h'.
Proof.
  intros Hv Hp k a Hk. apply prefix_length in Hp.
  specialize (Hv k a Hk). lia.
Qed.

Lemma heap_allocate_run p qb s :
  Heap.allocate p qb s =
    let rA := Heap.pickUnique qb (need_marks (sectionA_need p))
                (count (sectionA_need p)) s in
    let rB1 := Heap.pickUnique qb (need_marks (sectionB_need_part1 p))
                 (count (sectionB_need_part1 p)) rA.2 in
    let rB2 := Heap.pickUnique qb (need_marks (sectionB_need_part2 p))
                 (count (sectionB_need_part2 p)) rB1.2 in
    let rC := Heap.pickUnique qb (need_marks (sectionC_need p))
                (count (sectionC_need p)) rB2.2 in
    ({| of_sectionA := rA.1; of_sectionB_part1 := rB1.1;
        of_sectionB_part2 := rB2.1; of_sectionC := rC.1 |}, rC.2).
Proof.
  unfold Heap.allocate, mbind, M_bind.
  destruct (Heap.pickUnique qb _ _ s) as [a s1]. cbn [fst snd].
  destruct (Heap.pickUnique qb _ _ s1) as [b1 s2]. cbn [fst snd].
  destruct (Heap.pickUnique qb _ _ s2) as [b2 s3]. cbn [fst snd].
  destruct (Heap.pickUnique qb _ _ s3) as [c s4]. done.
Qed.

(** The four arrays that [allocate] returns hold, at the end and in every
    store grown from there, what the functional [allocate] delivers. *)
Lemma heap_allocate_sim p qb s :
  allocated qb (Heap.arrays s) →
  let r := Heap.allocate p qb s in
  let pr := allocate p (Heap.contents (Heap.arrays s) <$> qb) (abstract s) in
  Heap.arrays s `prefix_of` Heap.arrays r.2 ∧
  abstract r.2 = pr.2 ∧
  ∀ h', Heap.arrays r.2 `prefix_of` h' →
    Heap.contents h' (of_sectionA r.1) = of_sectionA pr.1 ∧
    Heap.contents h' (of_sectionB_part1 r.1) = of_sectionB_part1 pr.1 ∧
    Heap.contents h' (of_sectionB_part2 r.1) = of_sectionB_part2 pr.1 ∧
    Heap.contents h' (of_sectionC r.1) = of_sectionC pr.1.
Proof.
  intros Hv r pr. subst r pr.
  rewrite heap_allocate_run, allocate_run.
  unfold state_before_C, state_before_B2, state_before_B1.
  cbn [fst snd of_sectionA of_sectionB_part1 of_sectionB_part2 of_sectionC].
  set (pqb := Heap.contents (Heap.arrays s) <$> qb).
  pose proof (heap_pickUnique_sim qb (need_marks (sectionA_need p))
                (count (sectionA_need p)) s) as HA.
  fold pqb in HA. cbn zeta in HA.
  destruct (Heap.pickUnique qb _ _ s) as [a s1].
  pose proof HA as (HpA & _ & _ & <-). cbn [fst snd] in *.
  pose proof (heap_pickUnique_sim qb (need_marks (sectionB_need_part1 p))
                (count (sectionB_need_part1 p)) s1) as HB1.
  rewrite (buckets_stable qb _ _ Hv HpA) in HB1.
  fold pqb in HB1. cbn zeta in HB1.
  destruct (Heap.pickUnique qb _ _ s1) as [b1 s2].
  pose proof HB1 as (HpB1 & _ & _ & <-). cbn [fst snd] in *.
  assert (Hp2 : Heap.arrays s `prefix_of` Heap.arrays s2) by (by etrans).
  pose proof (heap_pickUnique_sim qb (need_marks (sectionB_need_part2 p))
                (count (sectionB_need_part2 p)) s2) as HB2.
  rewrite (buckets_stable qb _ _ Hv Hp2) in HB2.
  fold pqb in HB2. cbn zeta in HB2.
  destruct (Heap.pickUnique qb _ _ s2) as [b2 s3].
  pose proof HB2 as (HpB2 & _ & _ & <-). cbn [fst snd] in *.
  assert (Hp3 : Heap.arrays s `prefix_of` Heap.arrays s3) by (by etrans).
  pose proof (heap_pickUnique_sim qb (need_marks (sectionC_need p))
                (count (sectionC_need p)) s3) as HC.
  rewrite (buckets_stable qb _ _ Hv Hp3) in HC.
  fold pqb in HC. cbn zeta in HC.
  destruct (Heap.pickUnique qb _ _ s3) as [c s4].
  pose proof HC as (HpC & _ & _ & <-). cbn [fst snd] in *.
  split; [by etrans|]. split; [done|]. intros h' Hp'.
  assert (P3 : Heap.arrays s3 `prefix_of` h') by (by etrans).
  assert (P2 : Heap.arrays s2 `prefix_of` h') by (by etrans).
  assert (P1 : Heap.arrays s1 `prefix_of` h') by (by etrans).
  destruct (returns_later _ _ _ _ _ HA P1) as [EA _].
  destruct (returns_later _ _ _ _ _ HB1 P2) as [EB1 _].
  destruct (returns_later _ _ _ _ _ HB2 P3) as [EB2 _].
  destruct (returns_later _ _ _ _ _ HC Hp') as [EC _].
  done.
Qed.



Lemma heap_qByMarks_run allQuestions all s :
  Heap.arrays s !! allQuestions = Some all →
  Heap.qByMarks allQuestions s =
    ({[ 2%Z := length (Heap.arrays s);
        3%Z := S (length (Heap.arrays s));
        5%Z := S (S (length (Heap.arrays s))) ]},
     {| Heap.arrays :=
          Heap.arrays s ++ [ filter (λ q, marks q = 2%Z) all;
                             filter (λ q, marks q = 3%Z) all;
                             filter (λ q, marks q = 5%Z) all ];
        Heap.usedIds := Heap.usedIds s;
        Heap.random := Heap.random s |}).
Proof.
  intros Hall. destruct s as [h u g]. cbn [Heap.arrays] in Hall.
  assert (Hlt : allQuestions < length h) by (by eapply lookup_lt_Some).
  unfold Heap.qByMarks, Heap.filter_array, Heap.read, Heap.new_array,
    mbind, M_bind, mret, M_ret.
  cbn [Heap.arrays Heap.usedIds Heap.random].
  assert (H0 : Heap.contents h allQuestions = all)
    by (by apply contents_lookup).
  assert (H1 : Heap.contents (h ++ [filter (λ q, marks q = 2%Z) all])
                 allQuestions = all).
  { rewrite <- H0. apply contents_prefix; [by apply prefix_app_r|done]. }
  assert (H2 : Heap.contents ((h ++ [filter (λ q, marks q = 2%Z) all])
                   ++ [filter (λ q, marks q = 3%Z) all]) allQuestions = all).
  { rewrite <- H0. apply contents_prefix; [by do 2 apply prefix_app_r|done]. }
  rewrite H0, H1, H2, !length_app. cbn [length].
  rewrite <- !(assoc_L (++)). cbn [app].
  do 3 f_equal; f_equal; lia.
Qed.

Lemma heap_bucket_length_run qb k s :
  Heap.bucket_length qb k s =
    (length (default [] ((Heap.contents (Heap.arrays s) <$> qb) !! k)), s).
Proof.
  unfold Heap.bucket_length. rewrite lookup_fmap.
  by destruct (qb !! k).
Qed.

(** The paper of the store embedding is the paper of the functional one. *)
Lemma heap_assemble_sim p allQuestions all s :
  Heap.arrays s !! allQuestions = Some all →
  (Heap.assemble p allQuestions s).1 = (assemble p all (Heap.random s)).1 ∧
  Heap.random (Heap.assemble p allQuestions s).2
    = (assemble p all (Heap.random s)).2.
Proof.
  intros Hall.
  destruct (Heap.assemble p allQuestions s) as [paper s'] eqn:Hrun.
  cbn [fst snd]. unfold Heap.assemble in Hrun.
  unfold mbind at 1, M_bind at 1 in Hrun.
  rewrite (heap_qByMarks_run _ _ _ Hall) in Hrun.
  set (n := length (Heap.arrays s)) in Hrun.
  set (qb := ({[ 2%Z := n; 3%Z := S n; 5%Z := S (S n) ]} : gmap Z nat))
    in Hrun.
  unfold mbind at 1, M_bind at 1 in Hrun. unfold Heap.new_Set at 1 in Hrun.
  cbn [Heap.arrays Heap.usedIds Heap.random] in Hrun.
  set (s1 := {| Heap.arrays := _; Heap.usedIds := ∅;
                Heap.random := Heap.random s |}) in Hrun.
  assert (Hqb : Heap.contents (Heap.arrays s1) <$> qb = qByMarks all).
  { unfold qb, qByMarks, s1. cbn [Heap.arrays].
    rewrite !fmap_insert, map_fmap_singleton. unfold Heap.contents.
    rewrite !lookup_app_r by (unfold n; lia).
    replace (n - length (Heap.arrays s))%nat with 0 by (unfold n; lia).
    replace (S n - length (Heap.arrays s))%nat with 1 by (unfold n; lia).
    replace (S (S n) - length (Heap.arrays s))%nat with 2 by (unfold n; lia).
    done. }
  assert (Hv : allocated qb (Heap.arrays s1)).
  { intros k a. unfold qb, s1. cbn [Heap.arrays]. rewrite length_app.
    fold n. cbn [length]. intros Hk.
    apply lookup_insert_Some in Hk as [[_ <-]|[_ Hk]]; [lia|].
    apply lookup_insert_Some in Hk as [[_ <-]|[_ Hk]]; [lia|].
    apply lookup_singleton_Some in Hk as [_ <-]. lia. }
  pose proof (heap_allocate_sim p qb s1 Hv) as Hsim. cbn zeta in Hsim.
  rewrite Hqb in Hsim.
  unfold assemble. unfold mbind at 1, M_bind at 1 in Hrun.
  change (abstract s1) with {| usedIds := ∅; random := Heap.random s |}
    in Hsim.
  destruct (Heap.allocate p qb s1) as [picks s3].
  destruct (allocate p (qByMarks all) _) as [ppicks t].
  cbn [fst snd] in Hsim |- *. destruct Hsim as (Hp3 & Habs & Hc).
  destruct (Hc (Heap.arrays s3) ltac:(done)) as (EA & EB1 & EB2 & EC).
  set (h4 := Heap.arrays s3 ++ [of_sectionB_part1 ppicks
                                  ++ of_sectionB_part2 ppicks]).
  destruct (Hc h4 ltac:(by apply prefix_app_r)) as (FA & FB1 & FB2 & FC).
  assert (FB : Heap.contents h4 (length (Heap.arrays s3))
             = of_sectionB_part1 ppicks ++ of_sectionB_part2 ppicks)
    by apply contents_new.
  assert (Hqb4 : Heap.contents h4 <$> qb = qByMarks all).
  { rewrite <- Hqb. apply buckets_stable; [done|].
    etrans; [exact Hp3|]. by apply prefix_app_r. }
  unfold mbind, M_bind, Heap.read, Heap.length_of, Heap.new_array, mret,
    M_ret, mbind, M_bind in Hrun.
  cbn [Heap.arrays Heap.usedIds Heap.random fst snd] in Hrun.
  rewrite EB1, EB2 in Hrun. fold h4 in Hrun.
  rewrite !heap_bucket_length_run in Hrun.
  cbn [Heap.arrays fst snd] in Hrun.
  unfold Heap.read in Hrun.
  cbn [Heap.arrays Heap.usedIds Heap.random fst snd] in Hrun.
  fold h4 in Hrun. rewrite Hqb4, FA, FB1, FB2, FC, FB in Hrun.
  injection Hrun as <- <-. subst t. done.
Qed.

Lemma heap_generate_with_run p allQuestions s :
  Heap.generate_with p (Some allQuestions) s =
    if bool_decide (length (Heap.contents (Heap.arrays s) allQuestions) = 0)
    then (Status404 "No questions found in database.", s)
    else (Status200 (Heap.assemble p allQuestions s).1,
          (Heap.assemble p allQuestions s).2).
Proof.
  unfold Heap.generate_with, Heap.length_of, Heap.read, mbind, M_bind. cbn.
  case_bool_decide; [done|]. by destruct (Heap.assemble p allQuestions s).
Qed.

Lemma heap_generate_with_sim p allQuestions all s :
  Heap.arrays s !! allQuestions = Some all →
  (Heap.generate_with p (Some allQuestions) s).1
    = (generate_with p (Resolved all) (Heap.random s)).1 ∧
  Heap.random (Heap.generate_with p (Some allQuestions) s).2
    = (generate_with p (Resolved all) (Heap.random s)).2.
Proof.
  intros Hall. rewrite heap_generate_with_run.
  rewrite (contents_lookup _ _ _ Hall).
  destruct (decide (all = [])) as [->|Hne]; [done|].
  rewrite generate_with_nonempty by done.
  rewrite bool_decide_eq_false_2 by (by destruct all). cbn [fst snd].
  destruct (heap_assemble_sim p allQuestions all s Hall) as [-> ->]. done.
Qed.

(** Right after the buckets are made, [qByMarks[k].length] is the number of
    questions of [k] marks of the collection. *)
Lemma heap_bucket_length_fresh allQuestions all s k :
  Heap.arrays s !! allQuestions = Some all →
  (Heap.bucket_length (Heap.qByMarks allQuestions s).1 k
     (Heap.qByMarks allQuestions s).2).1
  = length (default [] (qByMarks all !! k)).
Proof.
  intros Hall. rewrite (heap_qByMarks_run _ _ _ Hall).
  cbn [fst snd]. rewrite heap_bucket_length_run. cbn [fst Heap.arrays].
  f_equal. f_equal. f_equal. unfold qByMarks.
  rewrite !fmap_insert, map_fmap_singleton. unfold Heap.contents.
  rewrite !lookup_app_r by lia.
  replace (length (Heap.arrays s) - length (Heap.arrays s))%nat
    with 0 by lia.
  replace (S (length (Heap.arrays s)) - length (Heap.arrays s))%nat
    with 1 by lia.
  replace (S (S (length (Heap.arrays s))) - length (Heap.arrays s))%nat
    with 2 by lia.
  done.
Qed.

(** * More of the route: what the paper holds *)

Lemma generate_paper all g paper :
  (generate (Resolved all) g).1 = Status200 paper →
  all ≠ [] ∧ paper = (assemble route_plan all g).1.
Proof.
  unfold generate. intros Hr. destruct (decide (all = [])) as [->|Hne].
  - discriminate Hr.
  - rewrite generate_with_nonempty in Hr by done. simpl in Hr.
    split; [done|congruence].
Qed.

(** What [pickUnique] delivers from the buckets of [qByMarks] is in the
    collection and has the marks asked for. *)
Lemma pickUnique_marks all mark count s q :
  q ∈ (pickUnique (qByMarks all) mark count s).1 →
  q ∈ all ∧ marks q = mark.
Proof.
  intros Hq. apply pickUnique_elem in Hq as [Hq _].
  rewrite qByMarks_bucket in Hq. case_bool_decide.
  - by apply list_elem_of_filter in Hq as [? ?].
  - by apply elem_of_nil in Hq.
Qed.

Lemma assemble_section_marks all g q :
  let paper := (assemble route_plan all g).1 in
  (q ∈ sectionA paper → q ∈ all ∧ marks q = 2%Z) ∧
  (q ∈ sectionB_part1 paper → q ∈ all ∧ marks q = 2%Z) ∧
  (q ∈ sectionB_part2 paper → q ∈ all ∧ marks q = 3%Z) ∧
  (q ∈ sectionC paper → q ∈ all ∧ marks q = 5%Z).
Proof.
  intros paper. subst paper.
  destruct (assemble_picks route_plan all g) as (-> & -> & -> & -> & _).
  rewrite allocate_run.
  cbn [fst of_sectionA of_sectionB_part1 of_sectionB_part2 of_sectionC].
  split; [|split; [|split]]; intros Hq;
    by apply pickUnique_marks in Hq as [? ?].
Qed.

(** The sum of the reduce, for a section of questions of the same marks. *)
Lemma foldl_marks_shift (l : list Question) (z : Z) :
  foldl (λ s q, (s + marks q)%Z) z l = (z + sum_marks l)%Z.
Proof.
  unfold sum_marks. revert z. induction l as [|q l IH]; intros z; simpl.
  - lia.
  - rewrite IH, (IH (0 + marks q)%Z). lia.
Qed.

Lemma sum_marks_app (l1 l2 : list Question) :
  sum_marks (l1 ++ l2) = (sum_marks l1 + sum_marks l2)%Z.
Proof.
  unfold sum_marks at 1. rewrite foldl_app, foldl_marks_shift.
  fold (sum_marks l1). lia.
Qed.

Lemma sum_marks_same (l : list Question) (m : Z) :
  (∀ q, q ∈ l → marks q = m) →
  sum_marks l = (m * Z.of_nat (length l))%Z.
Proof.
  induction l as [|q l IH]; intros Hm; [unfold sum_marks; simpl; lia|].
  change (q :: l) with ([q] ++ l). rewrite sum_marks_app, IH.
  - unfold sum_marks at 1. simpl. rewrite (Hm q) by left. lia.
  - intros q' Hq'. apply Hm. by right.
Qed.

Lemma assemble_totals all g :
  let paper := (assemble route_plan all g).1 in
  totalQuestions paper =
    length (sectionA paper) + length (sectionB_part1 paper)
    + length (sectionB_part2 paper) + length (sectionC paper) ∧
  totalMarks paper =
    (2 * Z.of_nat (length (sectionA paper))
     + 2 * Z.of_nat (length (sectionB_part1 paper))
     + 3 * Z.of_nat (length (sectionB_part2 paper))
     + 5 * Z.of_nat (length (sectionC paper)))%Z.
Proof.
  intros paper.
  assert (Hm := λ q, assemble_section_marks all g q). cbn zeta in Hm.
  fold paper in Hm.
  assert (HA : sum_marks (sectionA paper)
               = (2 * Z.of_nat (length (sectionA paper)))%Z).
  { apply sum_marks_same. intros q Hq.
    destruct (Hm q) as (H & _). by destruct (H Hq). }
  assert (HB1 : sum_marks (sectionB_part1 paper)
                = (2 * Z.of_nat (length (sectionB_part1 paper)))%Z).
  { apply sum_marks_same. intros q Hq.
    destruct (Hm q) as (_ & H & _). by destruct (H Hq). }
  assert (HB2 : sum_marks (sectionB_part2 paper)
                = (3 * Z.of_nat (length (sectionB_part2 paper)))%Z).
  { apply sum_marks_same. intros q Hq.
    destruct (Hm q) as (_ & _ & H & _). by destruct (H Hq). }
  assert (HC : sum_marks (sectionC paper)
               = (5 * Z.of_nat (length (sectionC paper)))%Z).
  { apply sum_marks_same. intros q Hq.
    destruct (Hm q) as (_ & _ & _ & H). by destruct (H Hq). }
  revert HA HB1 HB2 HC. subst paper. unfold assemble.
  destruct (allocate route_plan (qByMarks all) _) as [picks s].
  cbn [fst totalQuestions totalMarks sectionA sectionB_part1 sectionB_part2
       sectionC].
  intros HA HB1 HB2 HC. rewrite sum_marks_app, length_app, HA, HB1, HB2, HC.
  split; lia.
Qed.

Lemma assemble_lengths_le p all g :
  let paper := (assemble p all g).1 in
  length (sectionA paper) ≤ Z.to_nat (Z.max 0 (count (sectionA_need p))) ∧
  length (sectionB_part1 paper)
    ≤ Z.to_nat (Z.max 0 (count (sectionB_need_part1 p))) ∧
  length (sectionB_part2 paper)
    ≤ Z.to_nat (Z.max 0 (count (sectionB_need_part2 p))) ∧
  length (sectionC paper) ≤ Z.to_nat (Z.max 0 (count (sectionC_need p))).
Proof.
  intros paper. subst paper.
  destruct (assemble_picks p all g) as (-> & -> & -> & -> & _).
  rewrite allocate_run.
  cbn [fst of_sectionA of_sectionB_part1 of_sectionB_part2 of_sectionC].
  rewrite !pickUnique_length. repeat split; apply Nat.le_min_l.
Qed.

(** ** Every delivery is taken out of its bucket *)

Lemma buckets_perm all :
  filter (λ q, marks q = 2%Z) all ++ filter (λ q, marks q = 3%Z) all
    ++ filter (λ q, marks q = 5%Z) all
  ≡ₚ filter (λ q, marks q = 2 ∨ marks q = 3 ∨ marks q = 5)%Z all.
Proof.
  induction all as [|q all IH]; [done|]. rewrite !filter_cons.
  destruct (decide (marks q = 2%Z)) as [H2|H2].
  - rewrite decide_False, decide_False, decide_True by lia.
    simpl. by rewrite IH.
  - destruct (decide (marks q = 3%Z)) as [H3|H3].
    + rewrite decide_False, decide_True by lia.
      simpl. rewrite <- Permutation_middle. by rewrite IH.
    + destruct (decide (marks q = 5%Z)) as [H5|H5].
      * rewrite decide_True by lia. rewrite !(assoc_L (++)).
        rewrite <- Permutation_middle. rewrite <- !(assoc_L (++)).
        by rewrite IH.
      * by rewrite decide_False by lia.
Qed.

(** A larger used-set leaves fewer candidates. *)
Lemma candidates_mono qb mark (u u' : gset string) :
  u ⊆ u' → candidates qb mark u' ⊆+ candidates qb mark u.
Proof.
  intros Hu. unfold candidates.
  rewrite <- (list_filter_filter_l (λ q, _id q ∉ u') (λ q, _id q ∉ u)).
  - apply sublist_submseteq, sublist_filter.
  - intros q Hq Hin. apply Hq. by apply Hu.
Qed.

Lemma candidates_sub_bucket qb mark u :
  candidates qb mark u ⊆+ default [] (qb !! mark).
Proof. apply sublist_submseteq, sublist_filter. Qed.

(** What is left to a later request on the same bucket is among what the
    earlier one did not take, whatever the identifiers are. *)
Lemma candidates_after_pick_sub qb mark used picked rest :
  picked ++ rest ≡ₚ candidates qb mark used →
  candidates qb mark (used ∪ ids picked) ⊆+ rest.
Proof.
  intros Hp.
  assert (Heq : candidates qb mark (used ∪ ids picked)
              = filter (λ q, _id q ∉ ids picked) (candidates qb mark used)).
  { unfold candidates. rewrite list_filter_filter.
    apply list_filter_iff. intros q. rewrite not_elem_of_union. tauto. }
  rewrite Heq, <- Hp, filter_app, filter_none.
  - apply sublist_submseteq, sublist_filter.
  - intros q Hq Hn. apply Hn. by apply elem_of_ids.
Qed.

(** A second request on the bucket of a first one: together they take no
    more than the candidates the first one found. *)
Lemma two_requests_share qb mark c1 c2 s :
  let r1 := pickUnique qb mark c1 s in
  r1.1 ++ (pickUnique qb mark c2 r1.2).1 ⊆+ candidates qb mark (usedIds s).
Proof.
  intros r1.
  destruct (pickUnique_prefix qb mark c1 s) as [rest1 Hp1]. fold r1 in Hp1.
  destruct (pickUnique_prefix qb mark c2 r1.2) as [rest2 Hp2].
  rewrite <- Hp1. apply submseteq_app; [done|].
  etrans; [|apply (candidates_after_pick_sub qb mark _ _ _ Hp1)].
  unfold r1 at 2 in Hp2. rewrite pickUnique_used in Hp2. fold r1 in Hp2.
  rewrite <- Hp2. by apply submseteq_inserts_r.
Qed.

Lemma pickUnique_sub_bucket qb mark count s :
  (pickUnique qb mark count s).1 ⊆+ default [] (qb !! mark).
Proof.
  destruct (pickUnique_prefix qb mark count s) as [rest Hp].
  etrans; [|apply (candidates_sub_bucket qb mark (usedIds s))].
  rewrite <- Hp. by apply submseteq_inserts_r.
Qed.

(** The deliveries of the route, bucket by bucket. *)
Lemma route_shares all g :
  let paper := (assemble route_plan all g).1 in
  sectionA paper ++ sectionB_part1 paper
    ⊆+ filter (λ q, marks q = 2%Z) all ∧
  sectionB_part2 paper ⊆+ filter (λ q, marks q = 3%Z) all ∧
  sectionC paper ⊆+ filter (λ q, marks q = 5%Z) all.
Proof.
  intros paper. subst paper.
  destruct (assemble_picks route_plan all g) as (-> & -> & -> & -> & _).
  rewrite allocate_run.
  cbn [fst of_sectionA of_sectionB_part1 of_sectionB_part2 of_sectionC
       route_plan sectionA_need sectionB_need_part1 sectionB_need_part2
       sectionC_need need_marks count].
  unfold state_before_B1.
  cbn [route_plan sectionA_need need_marks count].
  split; [|split].
  - etrans; [apply two_requests_share|].
    etrans; [apply candidates_sub_bucket|].
    by rewrite qByMarks_bucket.
  - etrans; [apply pickUnique_sub_bucket|]. by rewrite qByMarks_bucket.
  - etrans; [apply pickUnique_sub_bucket|]. by rewrite qByMarks_bucket.
Qed.

(** ** The sizes of the sections, from the sizes of the buckets *)

Lemma ids_of_marks all qb_mark count s other :
  qb_mark ≠ other →
  ∀ i, i ∈ ids (pickUnique (qByMarks all) qb_mark count s).1 →
       ∃ q, q ∈ all ∧ _id q = i ∧ marks q ≠ other.
Proof.
  intros Hne i Hi. apply elem_of_ids_inv in Hi as (q & Hq & <-).
  apply pickUnique_marks in Hq as [Hq Hm]. exists q. by subst.
Qed.

Lemma route_sizes all g :
  NoDup (_id <$> all) →
  let paper := (assemble route_plan all g).1 in
  let n2 := length (filter (λ q, marks q = 2%Z) all) in
  let n3 := length (filter (λ q, marks q = 3%Z) all) in
  let n5 := length (filter (λ q, marks q = 5%Z) all) in
  length (sectionA paper) = 10 `min` n2 ∧
  length (sectionB_part1 paper) = 5 `min` (n2 - length (sectionA paper)) ∧
  length (sectionB_part2 paper) = 5 `min` n3 ∧
  length (sectionC paper) = 7 `min` n5.
Proof.
  intros Hnd paper n2 n3 n5. subst paper.
  destruct (assemble_picks route_plan all g) as (-> & -> & -> & -> & _).
  set (s := {| usedIds := ∅; random := g |}).
  assert (Hb : ∀ k, NoDup (_id <$> default [] (qByMarks all !! k))).
  { intros k. eapply sublist_NoDup; [exact Hnd|].
    apply fmap_sublist, qByMarks_bucket_sublist. }
  pose proof (used_before_B1 route_plan (qByMarks all) s) as U1.
  pose proof (used_before_B2 route_plan (qByMarks all) s) as U2.
  pose proof (used_before_C route_plan (qByMarks all) s) as U3.
  rewrite allocate_run in *.
  cbn [fst of_sectionA of_sectionB_part1 of_sectionB_part2 of_sectionC
       route_plan sectionA_need sectionB_need_part1 sectionB_need_part2
       sectionC_need need_marks count] in *.
  (* section A *)
  destruct (pickUnique_prefix (qByMarks all) 2 10 s) as [restA HpA].
  pose proof (pickUnique_length (qByMarks all) 2 10 s) as LA.
  assert (C0 : length (candidates (qByMarks all) 2 (usedIds s)) = n2).
  { unfold candidates. rewrite filter_all by set_solver.
    by rewrite qByMarks_bucket. }
  rewrite C0 in LA.
  pose proof (Permutation_length HpA) as LrestA.
  rewrite length_app, C0 in LrestA.
  (* section B, part 1 *)
  pose proof (pickUnique_length (qByMarks all) 2 5
    (state_before_B1 route_plan (qByMarks all) s)) as LB1.
  rewrite U1 in LB1.
  rewrite (candidates_after_pick _ 2 _ _ restA (Hb _) HpA) in LB1.
  (* section B, part 2 *)
  pose proof (pickUnique_length (qByMarks all) 3 5
    (state_before_B2 route_plan (qByMarks all) s)) as LB2.
  rewrite (candidates_other_bucket all 3) in LB2; [|done|].
  2:{ intros i. rewrite U2, U1. simpl. rewrite !elem_of_union.
      intros [[Hi|Hi]|Hi]; [set_solver|..];
        by apply (ids_of_marks _ _ _ _ 3%Z) in Hi. }
  rewrite qByMarks_bucket, bool_decide_eq_true_2 in LB2 by lia.
  (* section C *)
  pose proof (pickUnique_length (qByMarks all) 5 7
    (state_before_C route_plan (qByMarks all) s)) as LC.
  rewrite (candidates_other_bucket all 5) in LC; [|done|].
  2:{ intros i. rewrite U3, U2, U1. simpl. rewrite !elem_of_union.
      intros [[[Hi|Hi]|Hi]|Hi]; [set_solver|..];
        by apply (ids_of_marks _ _ _ _ 5%Z) in Hi. }
  rewrite qByMarks_bucket, bool_decide_eq_true_2 in LC by lia.
  fold n3 in LB2. fold n5 in LC.
  change (Z.to_nat (0 `max` 10)) with 10 in LA.
  change (Z.to_nat (0 `max` 5)) with 5 in LB1, LB2.
  change (Z.to_nat (0 `max` 7)) with 7 in LC.
  split; [exact LA|]. split; [|by split].
  rewrite LB1. f_equal. clear - LrestA. lia.
Qed.

(** ** What is sent *)

Lemma sent_200 all g b :
  sent (generate (Resolved all) g).1 = (200, inr b) →
  all ≠ [] ∧ b = body_of (assemble route_plan all g).1.
Proof.
  intros Hs. destruct (generate (Resolved all) g).1 as [m|paper|m] eqn:Hr;
    simpl in Hs; try discriminate Hs.
  apply generate_paper in Hr as [Hne ->]. split; [done|]. congruence.
Qed.

Lemma sent_nonempty all g :
  all ≠ [] →
  sent (generate (Resolved all) g).1
    = (200, inr (body_of (assemble route_plan all g).1)).
Proof.
  intros Hne. unfold generate. by rewrite generate_with_nonempty.
Qed.

(** * The properties of the specification *)

#[local] Open Scope Z_scope.

(** C1.  Quota respect: each of the four calls of [pickUnique] that make an
    allocation run delivers [min(wanted, unused)] questions, where [unused]
    counts the questions of the call's bucket whose identifier is not in the
    used-set in the state the call starts from.  Stated for any four section
    definitions with counts that are not negative, any bucket map and any
    starting state; the route runs it on [route_plan], [qByMarks] and the
    empty used-set. *)
Theorem delivered_is_min_of_wanted_and_unused
    (p : plan) (qb : gmap Z (list Question)) (s : state) :
  0 ≤ count (sectionA_need p) →
  0 ≤ count (sectionB_need_part1 p) →
  0 ≤ count (sectionB_need_part2 p) →
  0 ≤ count (sectionC_need p) →
  let unused (n : need) (before : state) : Z :=
    Z.of_nat (length (candidates qb (need_marks n) (usedIds before))) in
  let picks := (allocate p qb s).1 in
  Z.of_nat (length (of_sectionA picks)) =
    count (sectionA_need p) `min` unused (sectionA_need p) s ∧
  Z.of_nat (length (of_sectionB_part1 picks)) =
    count (sectionB_need_part1 p)
      `min` unused (sectionB_need_part1 p) (state_before_B1 p qb s) ∧
  Z.of_nat (length (of_sectionB_part2 picks)) =
    count (sectionB_need_part2 p)
      `min` unused (sectionB_need_part2 p) (state_before_B2 p qb s) ∧
  Z.of_nat (length (of_sectionC picks)) =
    count (sectionC_need p)
      `min` unused (sectionC_need p) (state_before_C p qb s).
Proof.
  intros HA HB1 HB2 HC unused picks. subst unused picks.
  rewrite allocate_run. cbn [fst of_sectionA of_sectionB_part1
    of_sectionB_part2 of_sectionC].
  rewrite !pickUnique_length. by rewrite !clamp_min.
Qed.

Lemma delivered_is_min_of_wanted_and_unused_witness :
  Z.of_nat (length (of_sectionA
    (allocate route_plan (qByMarks sample_pool) sample_state).1)) =
    10 `min` Z.of_nat (length (candidates (qByMarks sample_pool) 2
                                 (usedIds sample_state))) ∧
  Z.of_nat (length (of_sectionB_part1
    (allocate route_plan (qByMarks sample_pool) sample_state).1)) =
    5 `min` Z.of_nat (length (candidates (qByMarks sample_pool) 2
      (usedIds (state_before_B1 route_plan (qByMarks sample_pool)
                  sample_state)))) ∧
  Z.of_nat (length (of_sectionB_part2
    (allocate route_plan (qByMarks sample_pool) sample_state).1)) =
    5 `min` Z.of_nat (length (candidates (qByMarks sample_pool) 3
      (usedIds (state_before_B2 route_plan (qByMarks sample_pool)
                  sample_state)))) ∧
  Z.of_nat (length (of_sectionC
    (allocate route_plan (qByMarks sample_pool) sample_state).1)) =
    7 `min` Z.of_nat (length (candidates (qByMarks sample_pool) 5
      (usedIds (state_before_C route_plan (qByMarks sample_pool)
                  sample_state)))).
Proof.
  apply (delivered_is_min_of_wanted_and_unused
           route_plan (qByMarks sample_pool) sample_state);
    simpl; lia.
Defined.

(** C2.  Uniqueness: in the paper assembled from any collection, for any
    section definitions and any draws, no identifier is delivered to two of
    the four requests (section A, section B part 1, section B part 2,
    section C); and when the identifiers of the collection are distinct, as
    those of the documents of a collection are, no identifier occurs twice
    in the four sequences taken together, hence in none of them. *)
Theorem no_identifier_delivered_twice
    (p : plan) (allQuestions : list Question) (g : source) :
  let paper := (assemble p allQuestions g).1 in
  (ids (sectionA paper) ## ids (sectionB_part1 paper) ∧
   ids (sectionA paper) ## ids (sectionB_part2 paper) ∧
   ids (sectionA paper) ## ids (sectionC paper) ∧
   ids (sectionB_part1 paper) ## ids (sectionB_part2 paper) ∧
   ids (sectionB_part1 paper) ## ids (sectionC paper) ∧
   ids (sectionB_part2 paper) ## ids (sectionC paper)) ∧
  (NoDup (_id <$> allQuestions) →
   NoDup (_id <$> sectionA paper) ∧
   NoDup (_id <$> sectionB_part1 paper) ∧
   NoDup (_id <$> sectionB_part2 paper) ∧
   NoDup (_id <$> sectionC paper) ∧
   NoDup (_id <$> (sectionA paper ++ sectionB_part1 paper
                     ++ sectionB_part2 paper ++ sectionC paper))).
Proof.
  intros paper. subst paper.
  destruct (assemble_picks p allQuestions g) as (-> & -> & -> & -> & _).
  set (qb := qByMarks allQuestions).
  set (s := {| usedIds := ∅; random := g |}).
  pose proof (used_before_B1 p qb s) as U1.
  pose proof (used_before_B2 p qb s) as U2.
  pose proof (used_before_C p qb s) as U3.
  rewrite allocate_run in *.
  cbn [fst of_sectionA of_sectionB_part1 of_sectionB_part2 of_sectionC] in *.
  set (a := (pickUnique qb _ _ s).1) in *.
  pose proof (pickUnique_fresh qb (need_marks (sectionB_need_part1 p))
    (count (sectionB_need_part1 p)) (state_before_B1 p qb s)) as F1.
  pose proof (pickUnique_fresh qb (need_marks (sectionB_need_part2 p))
    (count (sectionB_need_part2 p)) (state_before_B2 p qb s)) as F2.
  pose proof (pickUnique_fresh qb (need_marks (sectionC_need p))
    (count (sectionC_need p)) (state_before_C p qb s)) as F3.
  set (b1 := (pickUnique qb _ _ (state_before_B1 p qb s)).1) in *.
  set (b2 := (pickUnique qb _ _ (state_before_B2 p qb s)).1) in *.
  set (c := (pickUnique qb _ _ (state_before_C p qb s)).1) in *.
  rewrite U3, U2, U1 in F3. rewrite U2, U1 in F2. rewrite U1 in F1.
  clear U1 U2 U3.
  assert (Hdisj : ids a ## ids b1 ∧ ids a ## ids b2 ∧ ids a ## ids c ∧
                  ids b1 ## ids b2 ∧ ids b1 ## ids c ∧ ids b2 ## ids c).
  { clearbody a b1 b2 c. set_solver. }
  split; [exact Hdisj|]. intros Hnd.
  assert (Hb : ∀ k, NoDup (_id <$> default [] (qb !! k))).
  { intros k. eapply sublist_NoDup; [exact Hnd|].
    apply fmap_sublist, qByMarks_bucket_sublist. }
  assert (Ha : NoDup (_id <$> a)) by apply pickUnique_NoDup, Hb.
  assert (Hb1 : NoDup (_id <$> b1)) by apply pickUnique_NoDup, Hb.
  assert (Hb2 : NoDup (_id <$> b2)) by apply pickUnique_NoDup, Hb.
  assert (Hc : NoDup (_id <$> c)) by apply pickUnique_NoDup, Hb.
  repeat split; try done.
  clearbody a b1 b2 c. unfold ids in Hdisj.
  rewrite !fmap_app, !NoDup_app. set_solver.
Qed.

Lemma no_identifier_delivered_twice_witness :
  NoDup (_id <$> sample_pool) ∧
  NoDup (_id <$>
    (sectionA (assemble route_plan sample_pool sample_source).1
     ++ sectionB_part1 (assemble route_plan sample_pool sample_source).1
     ++ sectionB_part2 (assemble route_plan sample_pool sample_source).1
     ++ sectionC (assemble route_plan sample_pool sample_source).1)).
Proof.
  assert (Hnd : NoDup (_id <$> sample_pool)).
  { apply (bool_decide_unpack _). vm_compute. exact I. }
  split; [exact Hnd|].
  destruct (no_identifier_delivered_twice route_plan sample_pool
              sample_source) as [_ H].
  apply (H Hnd).
Defined.

(** C3, as the code has it.  [qByMarks] has the three buckets 2, 3 and 5.  A
    question is in a bucket exactly when it is in the collection and the
    key of the bucket is its own marks; so a question of 2, 3 or 5 marks is
    in one bucket, the one of its marks, and a question of any other marks is
    in none.  The three buckets together are a rearrangement of the
    questions of 2, 3 or 5 marks of the collection: none lost, none
    repeated. *)
Theorem buckets_hold_the_questions_of_2_3_5_marks
    (allQuestions : list Question) :
  dom (qByMarks allQuestions) = {[ 2; 3; 5 ]} ∧
  (∀ q k bucket,
     qByMarks allQuestions !! k = Some bucket →
     q ∈ bucket ↔ q ∈ allQuestions ∧ marks q = k) ∧
  default [] (qByMarks allQuestions !! 2)
    ++ default [] (qByMarks allQuestions !! 3)
    ++ default [] (qByMarks allQuestions !! 5)
  ≡ₚ filter (λ q, marks q = 2 ∨ marks q = 3 ∨ marks q = 5) allQuestions.
Proof.
  split; [|split].
  - unfold qByMarks. rewrite !dom_insert_L, dom_singleton_L. set_solver.
  - intros q k bucket Hk.
    pose proof (qByMarks_bucket allQuestions k) as Hb. rewrite Hk in Hb.
    simpl in Hb. subst bucket. case_bool_decide as Hin.
    + by rewrite list_elem_of_filter, (comm and).
    + exfalso. unfold qByMarks in Hk.
      rewrite !lookup_insert_ne, lookup_singleton_ne in Hk by lia. done.
  - rewrite !qByMarks_bucket. simpl.
    induction allQuestions as [|q all IH]; [done|].
    rewrite !filter_cons.
    destruct (decide (marks q = 2)) as [H2|H2];
      destruct (decide (marks q = 3)) as [H3|H3];
      destruct (decide (marks q = 5)) as [H5|H5]; try lia;
      (destruct (decide (marks q = 2 ∨ marks q = 3 ∨ marks q = 5));
       [|try tauto]; try lia).
    + simpl. by rewrite IH.
    + simpl. rewrite <- Permutation_middle. by rewrite IH.
    + rewrite !(assoc app). rewrite <- Permutation_middle.
      rewrite <- !(assoc app). by rewrite IH.
Qed.

Lemma buckets_hold_the_questions_of_2_3_5_marks_witness :
  qByMarks sample_pool !! 2
    = Some (filter (λ q, marks q = 2) sample_pool) ∧
  (question "a01" 2 ∈ filter (λ q, marks q = 2) sample_pool ↔
   question "a01" 2 ∈ sample_pool ∧ marks (question "a01" 2) = 2).
Proof.
  assert (H2 : qByMarks sample_pool !! 2
               = Some (filter (λ q, marks q = 2) sample_pool))
    by reflexivity.
  split; [exact H2|].
  destruct (buckets_hold_the_questions_of_2_3_5_marks sample_pool)
    as (_ & H & _).
  exact (H (question "a01" 2) 2 _ H2).
Defined.

(** C3 as stated fails: a question of 4 marks is in the collection and in no
    bucket. *)
Lemma question_of_other_marks_is_in_no_bucket :
  question "q4" 4 ∈ [question "q4" 4] ∧
  ∀ k bucket,
    qByMarks [question "q4" 4] !! k = Some bucket →
    question "q4" 4 ∉ bucket.
Proof.
  split; [by left|]. intros k bucket Hk Hin.
  pose proof (qByMarks_bucket [question "q4" 4] k) as Hb.
  rewrite Hk in Hb. simpl in Hb. subst bucket.
  case_bool_decide as Hc.
  - apply list_elem_of_filter in Hin as [Hm _]. simpl in Hm. lia.
  - by apply elem_of_nil in Hin.
Qed.

(** C4, as the code has it.  No call raises an error for a negative count:
    [pickRandom] reads its count through [Math.max(0, n)].  With a negative
    count, [pickRandom] and [pickUnique] do what they do with the count 0:
    they return the empty sequence and leave the used-set as it is, after
    the candidates have been shuffled, so that the draws of the shuffle are
    taken.  An allocation run over any four section definitions is the run
    over the definitions with each count [n] replaced by [max(0, n)], and
    each of its four requests delivers [min(max(0, count), unused)]
    questions: a request with a negative count delivers none, and the
    other requests are served as in C1.  On a collection that is not empty
    the route answers with the paper made of these deliveries. *)
Theorem negative_count_is_served_as_zero :
  (∀ (A : Type) (array : list A) (n : Z) (g : source),
     n < 0 →
     pickRandom array n g = pickRandom array 0 g ∧
     (pickRandom array n g).1 = [] ∧
     cursor (pickRandom array n g).2 = (cursor g + (length array - 1))%nat) ∧
  (∀ (qb : gmap Z (list Question)) (mark count : Z) (s : state),
     count < 0 →
     pickUnique qb mark count s = pickUnique qb mark 0 s ∧
     (pickUnique qb mark count s).1 = [] ∧
     usedIds (pickUnique qb mark count s).2 = usedIds s ∧
     cursor (random (pickUnique qb mark count s).2) =
       (cursor (random s)
        + (length (candidates qb mark (usedIds s)) - 1))%nat) ∧
  (∀ (p : plan) (qb : gmap Z (list Question)) (s : state),
     let unused (n : need) (before : state) : Z :=
       Z.of_nat (length (candidates qb (need_marks n) (usedIds before))) in
     let picks := (allocate p qb s).1 in
     allocate p qb s = allocate (clamped p) qb s ∧
     Z.of_nat (length (of_sectionA picks)) =
       Z.max 0 (count (sectionA_need p)) `min` unused (sectionA_need p) s ∧
     Z.of_nat (length (of_sectionB_part1 picks)) =
       Z.max 0 (count (sectionB_need_part1 p))
         `min` unused (sectionB_need_part1 p) (state_before_B1 p qb s) ∧
     Z.of_nat (length (of_sectionB_part2 picks)) =
       Z.max 0 (count (sectionB_need_part2 p))
         `min` unused (sectionB_need_part2 p) (state_before_B2 p qb s) ∧
     Z.of_nat (length (of_sectionC picks)) =
       Z.max 0 (count (sectionC_need p))
         `min` unused (sectionC_need p) (state_before_C p qb s)) ∧
  (∀ (p : plan) (allQuestions : list Question) (g : source),
     allQuestions ≠ [] →
     ∃ paper,
       (generate_with p (Resolved allQuestions) g).1 = Status200 paper ∧
       let picks :=
         (allocate (clamped p) (qByMarks allQuestions)
            {| usedIds := ∅; random := g |}).1 in
       sectionA paper = of_sectionA picks ∧
       sectionB_part1 paper = of_sectionB_part1 picks ∧
       sectionB_part2 paper = of_sectionB_part2 picks ∧
       sectionC paper = of_sectionC picks ∧
       sectionB paper = of_sectionB_part1 picks ++ of_sectionB_part2 picks).
Proof.
  split; [|split; [|split]].
  - intros A array n g Hn.
    assert (Heq : pickRandom array n g = pickRandom array 0 g).
    { rewrite pickRandom_clamp. by replace (0 `max` n) with 0 by lia. }
    split; [done|]. split; [|apply pickRandom_cursor].
    apply length_zero_iff_nil. rewrite pickRandom_length. lia.
  - intros qb mark count s Hc.
    assert (Hnil : (pickUnique qb mark count s).1 = []).
    { apply length_zero_iff_nil. rewrite pickUnique_length. lia. }
    split; [|split; [done|split]].
    + rewrite pickUnique_clamp. by replace (0 `max` count) with 0 by lia.
    + by apply pickUnique_nothing.
    + apply pickUnique_cursor.
  - intros p qb s unused picks. subst unused picks.
    split; [apply allocate_clamped|].
    rewrite allocate_run. cbn [fst of_sectionA of_sectionB_part1
      of_sectionB_part2 of_sectionC].
    by rewrite !pickUnique_length_clamped.
  - intros p allQuestions g Hne. exists (assemble p allQuestions g).1.
    rewrite generate_with_nonempty by done. split; [done|].
    cbv zeta. rewrite <- allocate_clamped. apply assemble_picks.
Qed.

Lemma negative_count_is_served_as_zero_witness :
  pickRandom [1; 2; 3]%nat (-1) sample_source
    = pickRandom [1; 2; 3]%nat 0 sample_source ∧
  (pickUnique (qByMarks sample_pool) 2 (-1) sample_state).1 = [] ∧
  usedIds (pickUnique (qByMarks sample_pool) 2 (-1) sample_state).2
    = usedIds sample_state ∧
  ∃ paper,
    (generate (Resolved sample_pool) sample_source).1 = Status200 paper ∧
    sectionA paper =
      of_sectionA (allocate (clamped route_plan) (qByMarks sample_pool)
                     {| usedIds := ∅; random := sample_source |}).1.
Proof.
  destruct negative_count_is_served_as_zero as (HR & HU & _ & HG).
  destruct (HR nat [1; 2; 3]%nat (-1) sample_source ltac:(lia))
    as (H1 & _).
  destruct (HU (qByMarks sample_pool) 2 (-1) sample_state ltac:(lia))
    as (_ & H2 & H3 & _).
  destruct (HG route_plan sample_pool sample_source ltac:(discriminate))
    as (paper & Hp & HA & _).
  split; [exact H1|]. split; [exact H2|]. split; [exact H3|].
  exists paper. split; [exact Hp|exact HA].
Defined.

(** C4 as stated fails.  The counts of the route are the literals 10, 5, 5
    and 7; the functions that take a count are [pickRandom] and
    [pickUnique].  With the draws 0.5, 0.9, 0.5, ... [pickRandom] called on
    [[1, 2, 3]] with the count [-1] returns the empty array after the two
    draws of the shuffle; [pickUnique(2, -1)] on the sample collection
    returns the empty array after eleven draws, and the call
    [pickUnique(2, 5)] that follows delivers five questions. *)
Lemma negative_count_raises_no_error :
  (pickRandom [1; 2; 3]%nat (-1) sample_source).1 = [] ∧
  cursor (pickRandom [1; 2; 3]%nat (-1) sample_source).2 = 2%nat ∧
  (pickUnique (qByMarks sample_pool) 2 (-1) sample_state).1 = [] ∧
  cursor (random (pickUnique (qByMarks sample_pool) 2 (-1) sample_state).2)
    = 11%nat ∧
  _id <$> (pickUnique (qByMarks sample_pool) 2 5
             (pickUnique (qByMarks sample_pool) 2 (-1) sample_state).2).1
    = ["a01"; "a09"; "a02"; "a07"; "a03"].
Proof.
  split; [vm_compute; reflexivity|]. split; [vm_compute; reflexivity|].
  split; [vm_compute; reflexivity|]. split; vm_compute; reflexivity.
Qed.

(** C5, as the code has it.  For an empty collection the route answers 404
    before it groups or allocates anything, with no paper and no report, and
    takes no draw.  The steps after that check, applied to the empty
    collection with any section definitions, give three empty buckets,
    empty sections, a report with 0 for every available and every picked
    count, and take no draw either. *)
Theorem empty_collection_is_answered_404 (p : plan) (g : source) :
  generate_with p (Resolved []) g
    = (Status404 "No questions found in database.", g) ∧
  (∀ k, default [] (qByMarks [] !! k) = []) ∧
  sectionA (assemble p [] g).1 = [] ∧
  sectionB_part1 (assemble p [] g).1 = [] ∧
  sectionB_part2 (assemble p [] g).1 = [] ∧
  sectionB (assemble p [] g).1 = [] ∧
  sectionC (assemble p [] g).1 = [] ∧
  available (paper_report (assemble p [] g).1)
    = {| mark2 := 0%nat; mark3 := 0%nat; mark5 := 0%nat |} ∧
  pickedCounts (paper_report (assemble p [] g).1)
    = {| of_sectionA := 0%nat; of_sectionB_part1 := 0%nat;
         of_sectionB_part2 := 0%nat; of_sectionC := 0%nat |} ∧
  (assemble p [] g).2 = g.
Proof.
  assert (Hb : ∀ k, default [] (qByMarks [] !! k) = []).
  { intros k. rewrite qByMarks_bucket. by case_bool_decide. }
  assert (Hpick : ∀ mark count s,
    pickUnique (qByMarks []) mark count s = ([], s)).
  { intros mark count [u g']. rewrite pickUnique_run. unfold candidates.
    rewrite Hb. cbn. rewrite pickRandom_nil. unfold ids. cbn.
    by rewrite union_empty_r_L. }
  assert (Hrun : allocate p (qByMarks []) {| usedIds := ∅; random := g |}
    = ({| of_sectionA := []; of_sectionB_part1 := [];
          of_sectionB_part2 := []; of_sectionC := [] |},
       {| usedIds := ∅; random := g |})).
  { rewrite allocate_run.
    unfold state_before_C, state_before_B2, state_before_B1.
    by rewrite !Hpick. }
  split; [done|]. split; [exact Hb|].
  unfold assemble. rewrite Hrun. cbn. by rewrite !Hb.
Qed.

(** C5 as stated fails: for the empty collection the route does not answer
    with a paper and its report, it answers 404. *)
Lemma empty_collection_gets_no_report :
  (generate (Resolved []) sample_source).1
    = Status404 "No questions found in database." ∧
  ∀ paper, (generate (Resolved []) sample_source).1 ≠ Status200 paper.
Proof. split; [reflexivity|]. intros paper. discriminate. Qed.

(** C6.  The pool sizes of the report.  For any section definitions and any
    draws, [report.available] holds the number of questions of 2, of 3 and
    of 5 marks of the collection: the sizes of the three buckets.  In the
    store embedding the route reads [qByMarks[k].length] after the four
    allocations, from arrays that it also read to draw from; what it reads
    there is what the same read gives right after the buckets are made,
    before any allocation.  The route itself, on a collection that is not
    empty, answers with a paper whose report has these sizes. *)
Theorem reported_pool_size_is_bucket_size
    (p : plan) (allQuestions : list Question) (g : source) :
  let sizes := {|
    mark2 := length (filter (λ q, marks q = 2) allQuestions);
    mark3 := length (filter (λ q, marks q = 3) allQuestions);
    mark5 := length (filter (λ q, marks q = 5) allQuestions) |} in
  available (paper_report (assemble p allQuestions g).1) = sizes ∧
  (∀ (s : Heap.state) (a : nat),
     Heap.arrays s !! a = Some allQuestions →
     let buckets := Heap.qByMarks a s in
     available (paper_report (Heap.assemble p a s).1) = sizes ∧
     available (paper_report (Heap.assemble p a s).1) =
       {| mark2 := (Heap.bucket_length buckets.1 2 buckets.2).1;
          mark3 := (Heap.bucket_length buckets.1 3 buckets.2).1;
          mark5 := (Heap.bucket_length buckets.1 5 buckets.2).1 |}) ∧
  (allQuestions ≠ [] →
   ∃ paper, (generate (Resolved allQuestions) g).1 = Status200 paper ∧
            available (paper_report paper) = sizes).
Proof.
  intros sizes.
  assert (Hpure : ∀ g',
    available (paper_report (assemble p allQuestions g').1) = sizes).
  { intros g'. by destruct (assemble_report p allQuestions g') as [-> _]. }
  split; [apply Hpure|]. split.
  - intros s a Hall buckets.
    destruct (heap_assemble_sim p a allQuestions s Hall) as [-> _].
    split; [apply Hpure|]. rewrite Hpure. subst buckets sizes.
    rewrite !(heap_bucket_length_fresh a allQuestions s _ Hall).
    by rewrite !qByMarks_bucket.
  - intros Hne. exists (assemble route_plan allQuestions g).1.
    unfold generate. rewrite generate_with_nonempty by done.
    split; [done|].
    by destruct (assemble_report route_plan allQuestions g) as [-> _].
Qed.

Lemma reported_pool_size_is_bucket_size_witness :
  Heap.arrays (store_of sample_pool sample_source) !! 0%nat
    = Some sample_pool ∧
  sample_pool ≠ [] ∧
  available (paper_report
    (Heap.assemble route_plan 0 (store_of sample_pool sample_source)).1)
    = {| mark2 := 12%nat; mark3 := 3%nat; mark5 := 0%nat |} ∧
  ∃ paper,
    (generate (Resolved sample_pool) sample_source).1 = Status200 paper ∧
    available (paper_report paper)
      = {| mark2 := 12%nat; mark3 := 3%nat; mark5 := 0%nat |}.
Proof.
  assert (H0 : Heap.arrays (store_of sample_pool sample_source) !! 0%nat
               = Some sample_pool) by reflexivity.
  assert (Hne : sample_pool ≠ []) by discriminate.
  destruct (reported_pool_size_is_bucket_size route_plan sample_pool
              sample_source) as (_ & Hheap & Hroute).
  split; [exact H0|]. split; [exact Hne|]. split.
  - exact (proj1 (Hheap (store_of sample_pool sample_source) 0%nat H0)).
  - exact (Hroute Hne).
Defined.

(** C7.  The scenario of the specification: for a collection with distinct
    identifiers that holds exactly 12 questions of 2 marks, 3 of 3 marks and
    none of 5 marks, and for any draws, the route answers with a paper that
    gives 10 questions to section A, 2 to part 1 of section B, 3 to part 2
    of section B and none to section C, and whose report has these counts
    under [pickedCounts] and 12, 3 and 0 under [available]. *)
Theorem scenario_twelve_three_none
    (allQuestions : list Question) (g : source) :
  NoDup (_id <$> allQuestions) →
  length (filter (λ q, marks q = 2) allQuestions) = 12%nat →
  length (filter (λ q, marks q = 3) allQuestions) = 3%nat →
  length (filter (λ q, marks q = 5) allQuestions) = 0%nat →
  ∃ paper,
    (generate (Resolved allQuestions) g).1 = Status200 paper ∧
    length (sectionA paper) = 10%nat ∧
    length (sectionB_part1 paper) = 2%nat ∧
    length (sectionB_part2 paper) = 3%nat ∧
    length (sectionC paper) = 0%nat ∧
    pickedCounts (paper_report paper) =
      {| of_sectionA := 10%nat; of_sectionB_part1 := 2%nat;
         of_sectionB_part2 := 3%nat; of_sectionC := 0%nat |} ∧
    available (paper_report paper) =
      {| mark2 := 12%nat; mark3 := 3%nat; mark5 := 0%nat |}.
Proof.
  intros Hnd H2 H3 H5.
  assert (Hne : allQuestions ≠ []) by (by intros ->).
  exists (assemble route_plan allQuestions g).1.
  unfold generate. rewrite generate_with_nonempty by done.
  split; [done|].
  destruct (assemble_report route_plan allQuestions g) as (-> & -> & _).
  rewrite H2, H3, H5.
  destruct (assemble_picks route_plan allQuestions g)
    as (-> & -> & -> & -> & _).
  set (s := {| usedIds := ∅; random := g |}).
  assert (Hb : ∀ k, NoDup (_id <$> default [] (qByMarks allQuestions !! k))).
  { intros k. eapply sublist_NoDup; [exact Hnd|].
    apply fmap_sublist, qByMarks_bucket_sublist. }
  pose proof (used_before_B1 route_plan (qByMarks allQuestions) s) as U1.
  pose proof (used_before_B2 route_plan (qByMarks allQuestions) s) as U2.
  pose proof (used_before_C route_plan (qByMarks allQuestions) s) as U3.
  rewrite allocate_run in *.
  cbn [fst of_sectionA of_sectionB_part1 of_sectionB_part2 of_sectionC
       route_plan sectionA_need sectionB_need_part1 sectionB_need_part2
       sectionC_need need_marks count] in *.
  (* section A *)
  destruct (pickUnique_prefix (qByMarks allQuestions) 2 10 s) as [restA HpA].
  pose proof (pickUnique_length (qByMarks allQuestions) 2 10 s) as LA.
  assert (C0 : candidates (qByMarks allQuestions) 2 (usedIds s)
               = filter (λ q, marks q = 2) allQuestions).
  { unfold candidates. rewrite filter_all by set_solver.
    by rewrite qByMarks_bucket. }
  rewrite C0 in LA, HpA. rewrite H2 in LA.
  pose proof (Permutation_length HpA) as LrestA.
  rewrite length_app, H2 in LrestA.
  (* section B, part 1 *)
  pose proof (pickUnique_length (qByMarks allQuestions) 2 5
    (state_before_B1 route_plan (qByMarks allQuestions) s)) as LB1.
  rewrite <- C0 in HpA.
  rewrite U1 in LB1.
  rewrite (candidates_after_pick _ 2 _ _ restA (Hb _) HpA) in LB1.
  (* section B, part 2 *)
  pose proof (pickUnique_length (qByMarks allQuestions) 3 5
    (state_before_B2 route_plan (qByMarks allQuestions) s)) as LB2.
  rewrite (candidates_other_bucket allQuestions 3) in LB2; [|done|].
  2:{ intros i. rewrite U2, U1. simpl. rewrite !elem_of_union.
      intros [[Hi|Hi]|Hi]; [set_solver| |];
        apply elem_of_ids_inv in Hi as (q & Hq & <-);
        apply pickUnique_elem in Hq as [Hq _];
        rewrite qByMarks_bucket in Hq; simpl in Hq;
        apply list_elem_of_filter in Hq as [Hm Hq];
        exists q; (split; [done|split; [done|lia]]). }
  rewrite qByMarks_bucket in LB2. simpl in LB2. rewrite H3 in LB2.
  (* section C *)
  pose proof (pickUnique_length (qByMarks allQuestions) 5 7
    (state_before_C route_plan (qByMarks allQuestions) s)) as LC.
  assert (C5 : ∀ used,
    length (candidates (qByMarks allQuestions) 5 used) = 0%nat).
  { intros used. unfold candidates. rewrite qByMarks_bucket. simpl.
    pose proof (length_filter (λ q, _id q ∉ used)
                  (filter (λ q, marks q = 5) allQuestions)) as Hle.
    rewrite H5 in Hle. lia. }
  rewrite C5 in LC.
  repeat split; try f_equal; lia.
Qed.

Lemma scenario_twelve_three_none_witness :
  ∃ paper,
    (generate (Resolved sample_pool) sample_source).1 = Status200 paper ∧
    length (sectionA paper) = 10%nat ∧
    length (sectionB_part1 paper) = 2%nat ∧
    length (sectionB_part2 paper) = 3%nat ∧
    length (sectionC paper) = 0%nat ∧
    pickedCounts (paper_report paper) =
      {| of_sectionA := 10%nat; of_sectionB_part1 := 2%nat;
         of_sectionB_part2 := 3%nat; of_sectionC := 0%nat |} ∧
    available (paper_report paper) =
      {| mark2 := 12%nat; mark3 := 3%nat; mark5 := 0%nat |}.
Proof.
  apply (scenario_twelve_three_none sample_pool sample_source).
  - apply (bool_decide_unpack _). vm_compute. exact I.
  - reflexivity.
  - reflexivity.
  - reflexivity.
Defined.




(** C9.  A request for a key that has no bucket is served as a request on
    an empty bucket: [pickUnique] delivers the empty sequence and leaves the
    used-set and the random source as they were, and the bucket map with
    the empty bucket added under that key gives the same result for every
    call and every run. *)
Theorem missing_bucket_is_empty_bucket
    (qb : gmap Z (list Question)) (mark : Z) :
  qb !! mark = None →
  (∀ count s, pickUnique qb mark count s = ([], s)) ∧
  (∀ m count s,
     pickUnique (<[mark := []]> qb) m count s = pickUnique qb m count s) ∧
  (∀ p s, allocate p (<[mark := []]> qb) s = allocate p qb s).
Proof.
  intros Hnone.
  assert (Hsame : ∀ m count s,
    pickUnique (<[mark := []]> qb) m count s = pickUnique qb m count s).
  { intros m count s. rewrite !pickUnique_run. unfold candidates.
    destruct (decide (mark = m)) as [<-|Hne].
    - by rewrite lookup_insert_eq, Hnone.
    - by rewrite lookup_insert_ne. }
  split; [|split; [exact Hsame|]].
  - intros count [u g]. rewrite pickUnique_run. unfold candidates.
    rewrite Hnone. cbn. rewrite pickRandom_nil. unfold ids. cbn.
    by rewrite union_empty_r_L.
  - intros p s. rewrite !allocate_run.
    unfold state_before_C, state_before_B2, state_before_B1.
    by rewrite !Hsame.
Qed.

Lemma missing_bucket_is_empty_bucket_witness :
  qByMarks sample_pool !! 4 = None ∧
  pickUnique (qByMarks sample_pool) 4 7 sample_state = ([], sample_state).
Proof.
  assert (Hnone : qByMarks sample_pool !! 4 = None) by reflexivity.
  split; [exact Hnone|].
  apply (missing_bucket_is_empty_bucket (qByMarks sample_pool) 4 Hnone).
Defined.

(** C10.  The route writes no array that it was given.  In the store
    embedding every array that exists before a call is, after the call,
    where it was and cell for cell what it was: the store before is a prefix
    of the store after.  This holds for [shuffleArray], whose swaps go to the
    copy it makes and returns (a new address, holding the rearrangement that
    the functional [shuffleArray] computes), for [pickRandom], for
    [pickUnique], which returns a new array, for the four calls of
    [allocate], which start from a store that holds the collection and the
    three buckets, and for the body and the whole of the route; [qByMarks],
    the object, is never assigned to. *)
Theorem arrays_given_are_left_as_they_were :
  (∀ (array : nat) (s : Heap.state),
     let r := Heap.shuffleArray array s in
     Heap.arrays s `prefix_of` Heap.arrays r.2 ∧
     r.1 = length (Heap.arrays s) ∧
     Heap.contents (Heap.arrays r.2) r.1 =
       (shuffleArray (Heap.contents (Heap.arrays s) array)
          (Heap.random s)).1) ∧
  (∀ (array : nat) (n : Z) (s : Heap.state),
     let r := Heap.pickRandom array n s in
     Heap.arrays s `prefix_of` Heap.arrays r.2 ∧
     (length (Heap.arrays s) ≤ r.1 < length (Heap.arrays r.2))%nat) ∧
  (∀ (qb : gmap Z nat) (mark count : Z) (s : Heap.state),
     let r := Heap.pickUnique qb mark count s in
     Heap.arrays s `prefix_of` Heap.arrays r.2 ∧
     (length (Heap.arrays s) ≤ r.1 < length (Heap.arrays r.2))%nat) ∧
  (∀ (p : plan) (qb : gmap Z nat) (s : Heap.state),
     Heap.arrays s `prefix_of` Heap.arrays (Heap.allocate p qb s).2) ∧
  (∀ (p : plan) (allQuestions : nat) (s : Heap.state),
     Heap.arrays s
       `prefix_of` Heap.arrays (Heap.assemble p allQuestions s).2) ∧
  (∀ (p : plan) (found : option nat) (s : Heap.state),
     Heap.arrays s `prefix_of` Heap.arrays (Heap.generate_with p found s).2).
Proof.
  split; [|split; [|split; [|split; [|split]]]].
  - intros array s r. subst r. rewrite heap_shuffleArray_run.
    cbn [fst snd Heap.arrays]. rewrite contents_new.
    split; [by apply prefix_app_r|done].
  - intros array n s r.
    by destruct (heap_pickRandom_sim array n s) as (? & ? & _).
  - intros qb mark count s r.
    by destruct (heap_pickUnique_sim qb mark count s) as (? & ? & _).
  - intros p qb s. apply grows_allocate.
  - intros p allQuestions s. apply grows_assemble.
  - intros p found s. apply grows_generate_with.
Qed.

(** * Further properties of the route *)

(** X1.  In the body the route sends with status 200, every question of
    section A, of the two parts of section B and of section C is a question
    of the collection and has the [marksEach] of its section or part; the
    questions of section B are those of its part 1 followed by those of its
    part 2. *)
Theorem sections_hold_questions_of_their_marks
    (allQuestions : list Question) (g : source) (b : body) :
  sent (generate (Resolved allQuestions) g).1 = (200%nat, inr b) →
  (∀ pt q,
     pt ∈ A (body_sections b) :: parts (B (body_sections b))
            ++ [C (body_sections b)] →
     q ∈ questions pt →
     q ∈ allQuestions ∧ marks q = marksEach pt) ∧
  mixed_questions (B (body_sections b))
    = concat (questions <$> parts (B (body_sections b))).
Proof.
  intros Hs. apply sent_200 in Hs as [_ ->].
  pose proof (λ q, assemble_section_marks allQuestions g q) as Hm.
  cbn zeta in Hm.
  split.
  - intros pt q Hpt Hq.
    cbn [body_of body_sections A B C parts app] in Hpt.
    destruct (Hm q) as (HA & HB1 & HB2 & HC).
    repeat (apply elem_of_cons in Hpt as [->|Hpt]);
      [by apply HA|by apply HB1|by apply HB2|by apply HC|].
    by apply elem_of_nil in Hpt.
  - cbn [body_of body_sections B parts mixed_questions fmap list_fmap
         questions concat].
    destruct (assemble_picks route_plan allQuestions g)
      as (_ & -> & -> & _ & ->).
    by rewrite app_nil_r.
Qed.

Lemma sections_hold_questions_of_their_marks_witness :
  question "a01" 2 ∈ sample_pool ∧ marks (question "a01" 2) = 2.
Proof.
  assert (Hs : sent (generate (Resolved sample_pool) sample_source).1
    = (200%nat,
       inr (body_of (assemble route_plan sample_pool sample_source).1)))
    by (apply sent_nonempty; discriminate).
  destruct (sections_hold_questions_of_their_marks sample_pool sample_source
              _ Hs) as [H _].
  apply (H (A (body_sections
              (body_of (assemble route_plan sample_pool sample_source).1)))).
  - left.
  - vm_compute. left.
Defined.

(** X2.  The totals of [meta]: [totalQuestions] is the number of questions
    of the three sections, [totalMarks] is 2 for each question of section A
    and of part 1 of section B, 3 for each of part 2 and 5 for each of
    section C.  The paper never has more than 27 questions or 80 marks, and
    it has 80 marks exactly when every section got the number of questions
    it wanted. *)
Theorem totals_of_the_paper
    (allQuestions : list Question) (g : source) (b : body) :
  sent (generate (Resolved allQuestions) g).1 = (200%nat, inr b) →
  let nA := length (questions (A (body_sections b))) in
  let nB := length (mixed_questions (B (body_sections b))) in
  let nC := length (questions (C (body_sections b))) in
  meta_totalQuestions (body_meta b) = (nA + nB + nC)%nat ∧
  (meta_totalQuestions (body_meta b) ≤ 27)%nat ∧
  meta_totalMarks (body_meta b) =
    2 * Z.of_nat (of_sectionA (pickedCounts (body_report b)))
    + 2 * Z.of_nat (of_sectionB_part1 (pickedCounts (body_report b)))
    + 3 * Z.of_nat (of_sectionB_part2 (pickedCounts (body_report b)))
    + 5 * Z.of_nat (of_sectionC (pickedCounts (body_report b))) ∧
  0 ≤ meta_totalMarks (body_meta b) ≤ 80 ∧
  (meta_totalMarks (body_meta b) = 80 ↔
   pickedCounts (body_report b) =
     {| of_sectionA := 10%nat; of_sectionB_part1 := 5%nat;
        of_sectionB_part2 := 5%nat; of_sectionC := 7%nat |}).
Proof.
  intros Hs nA nB nC. subst nA nB nC. apply sent_200 in Hs as [_ ->].
  cbn [body_of body_meta body_sections body_report A B C questions
       mixed_questions meta_totalQuestions meta_totalMarks].
  destruct (assemble_totals allQuestions g) as [HQ HM].
  destruct (assemble_lengths_le route_plan allQuestions g)
    as (LA & LB1 & LB2 & LC).
  destruct (assemble_report route_plan allQuestions g) as (_ & -> & _).
  cbn [of_sectionA of_sectionB_part1 of_sectionB_part2 of_sectionC].
  destruct (assemble_picks route_plan allQuestions g)
    as (_ & EB1 & EB2 & _ & HB).
  rewrite HB, <- EB1, <- EB2, length_app. rewrite HM, HQ.
  clear HM HQ HB EB1 EB2.
  cbn [route_plan sectionA_need sectionB_need_part1 sectionB_need_part2
       sectionC_need count] in LA, LB1, LB2, LC.
  change (Z.to_nat (0 `max` 10)) with 10%nat in LA.
  change (Z.to_nat (0 `max` 5)) with 5%nat in LB1, LB2.
  change (Z.to_nat (0 `max` 7)) with 7%nat in LC.
  set (a := length (sectionA _)) in *.
  set (b1 := length (sectionB_part1 _)) in *.
  set (b2 := length (sectionB_part2 _)) in *.
  set (c := length (sectionC _)) in *.
  clearbody a b1 b2 c. clear - LA LB1 LB2 LC.
  split; [lia|]. split; [lia|]. split; [done|]. split; [lia|]. split.
  - intros H. f_equal; lia.
  - intros [= -> -> -> ->]. lia.
Qed.

Lemma totals_of_the_paper_witness :
  meta_totalMarks
    (body_meta (body_of (assemble route_plan sample_pool sample_source).1))
  = 2 * 10 + 2 * 2 + 3 * 3 + 5 * 0.
Proof.
  assert (Hs : sent (generate (Resolved sample_pool) sample_source).1
    = (200%nat,
       inr (body_of (assemble route_plan sample_pool sample_source).1)))
    by (apply sent_nonempty; discriminate).
  destruct (totals_of_the_paper sample_pool sample_source _ Hs)
    as (_ & _ & H & _).
  refine (eq_trans H _). vm_compute. reflexivity.
Defined.

(** X3.  For a collection with distinct identifiers, the bucket sizes decide
    the section sizes, whatever the draws: with [n2], [n3], [n5] questions
    of 2, 3 and 5 marks, section A gets [min(10, n2)], part 1 of section B
    gets [min(5, n2 - |A|)] (what section A left of the same bucket), part 2
    gets [min(5, n3)] and section C gets [min(7, n5)]. *)
Theorem section_sizes_follow_from_bucket_sizes
    (allQuestions : list Question) (g : source) (b : body) :
  NoDup (_id <$> allQuestions) →
  sent (generate (Resolved allQuestions) g).1 = (200%nat, inr b) →
  let n2 := length (filter (λ q, marks q = 2) allQuestions) in
  let n3 := length (filter (λ q, marks q = 3) allQuestions) in
  let n5 := length (filter (λ q, marks q = 5) allQuestions) in
  pickedCounts (body_report b) =
    {| of_sectionA := (10 `min` n2)%nat;
       of_sectionB_part1 := (5 `min` (n2 - 10 `min` n2))%nat;
       of_sectionB_part2 := (5 `min` n3)%nat;
       of_sectionC := (7 `min` n5)%nat |}.
Proof.
  intros Hnd Hs n2 n3 n5. apply sent_200 in Hs as [_ ->].
  cbn [body_of body_report].
  destruct (assemble_report route_plan allQuestions g) as (_ & -> & _).
  destruct (route_sizes allQuestions g Hnd) as (LA & LB1 & LB2 & LC).
  fold n2 in LA, LB1. fold n3 in LB2. fold n5 in LC.
  rewrite LA in LB1. by rewrite LA, LB1, LB2, LC.
Qed.

Lemma section_sizes_follow_from_bucket_sizes_witness :
  pickedCounts (body_report
    (body_of (assemble route_plan sample_pool sample_source).1)) =
    {| of_sectionA := 10%nat; of_sectionB_part1 := 2%nat;
       of_sectionB_part2 := 3%nat; of_sectionC := 0%nat |}.
Proof.
  assert (Hnd : NoDup (_id <$> sample_pool)).
  { apply (bool_decide_unpack _). vm_compute. exact I. }
  assert (Hs : sent (generate (Resolved sample_pool) sample_source).1
    = (200%nat,
       inr (body_of (assemble route_plan sample_pool sample_source).1)))
    by (apply sent_nonempty; discriminate).
  exact (section_sizes_follow_from_bucket_sizes sample_pool sample_source
           _ Hnd Hs).
Defined.

(** X4.  The paper the route is written for: when the collection has
    distinct identifiers and at least 15 questions of 2 marks, 5 of 3 marks
    and 7 of 5 marks, the route sends, for any draws, a paper with 10, 5, 5
    and 7 questions in its sections and parts, 27 questions and 80 marks in
    all. *)
Theorem enough_questions_give_the_whole_paper
    (allQuestions : list Question) (g : source) :
  NoDup (_id <$> allQuestions) →
  (15 ≤ length (filter (λ q, marks q = 2%Z) allQuestions))%nat →
  (5 ≤ length (filter (λ q, marks q = 3%Z) allQuestions))%nat →
  (7 ≤ length (filter (λ q, marks q = 5%Z) allQuestions))%nat →
  ∃ b,
    sent (generate (Resolved allQuestions) g).1 = (200%nat, inr b) ∧
    length (questions (A (body_sections b))) = 10%nat ∧
    length <$> (questions <$> parts (B (body_sections b)))
      = [5%nat; 5%nat] ∧
    length (mixed_questions (B (body_sections b))) = 10%nat ∧
    length (questions (C (body_sections b))) = 7%nat ∧
    meta_totalQuestions (body_meta b) = 27%nat ∧
    meta_totalMarks (body_meta b) = 80 ∧
    pickedCounts (body_report b) =
      {| of_sectionA := 10%nat; of_sectionB_part1 := 5%nat;
         of_sectionB_part2 := 5%nat; of_sectionC := 7%nat |}.
Proof.
  intros Hnd H2 H3 H5.
  assert (Hne : allQuestions ≠ []) by (intros ->; simpl in H2; lia).
  exists (body_of (assemble route_plan allQuestions g).1).
  split; [by apply sent_nonempty|].
  cbn [body_of body_meta body_sections body_report A B C questions parts
       mixed_questions meta_totalQuestions meta_totalMarks fmap list_fmap].
  destruct (assemble_totals allQuestions g) as [-> ->].
  destruct (assemble_report route_plan allQuestions g) as (_ & -> & _).
  destruct (assemble_picks route_plan allQuestions g)
    as (_ & EB1 & EB2 & _ & ->).
  rewrite <- EB1, <- EB2, length_app. clear EB1 EB2.
  destruct (route_sizes allQuestions g Hnd) as (LA & LB1 & LB2 & LC).
  rewrite LA in LB1.
  rewrite Nat.min_l in LA by lia. rewrite Nat.min_l in LB1 by lia.
  rewrite Nat.min_l in LB2 by lia. rewrite Nat.min_l in LC by lia.
  rewrite LA, LB1, LB2, LC. done.
Qed.

Lemma enough_questions_give_the_whole_paper_witness :
  ∃ b,
    sent (generate (Resolved full_pool) sample_source).1
      = (200%nat, inr b) ∧
    length (questions (A (body_sections b))) = 10%nat ∧
    length <$> (questions <$> parts (B (body_sections b)))
      = [5%nat; 5%nat] ∧
    length (mixed_questions (B (body_sections b))) = 10%nat ∧
    length (questions (C (body_sections b))) = 7%nat ∧
    meta_totalQuestions (body_meta b) = 27%nat ∧
    meta_totalMarks (body_meta b) = 80 ∧
    pickedCounts (body_report b) =
      {| of_sectionA := 10%nat; of_sectionB_part1 := 5%nat;
         of_sectionB_part2 := 5%nat; of_sectionC := 7%nat |}.
Proof.
  apply (enough_questions_give_the_whole_paper full_pool sample_source).
  - apply (bool_decide_unpack _). vm_compute. exact I.
  - vm_compute. lia.
  - vm_compute. lia.
  - vm_compute. lia.
Defined.

(** X5.  The paper is drawn from the collection: the questions of the
    three sections, taken together, are questions of the collection, none
    of them more often than it occurs there.  This needs no assumption on
    the identifiers. *)
Theorem paper_is_drawn_from_the_collection
    (allQuestions : list Question) (g : source) (b : body) :
  sent (generate (Resolved allQuestions) g).1 = (200%nat, inr b) →
  questions (A (body_sections b))
    ++ mixed_questions (B (body_sections b))
    ++ questions (C (body_sections b))
  ⊆+ allQuestions.
Proof.
  intros Hs. apply sent_200 in Hs as [_ ->].
  cbn [body_of body_sections A B C questions mixed_questions].
  destruct (route_shares allQuestions g) as (H2 & H3 & H5).
  destruct (assemble_picks route_plan allQuestions g)
    as (_ & EB1 & EB2 & _ & ->).
  rewrite <- EB1, <- EB2. clear EB1 EB2.
  etrans; [|apply sublist_submseteq,
              (sublist_filter (λ q, marks q = 2 ∨ marks q = 3 ∨ marks q = 5))].
  rewrite <- buckets_perm. rewrite (assoc_L (++)), (assoc_L (++)).
  rewrite <- (assoc_L (++) _ (sectionB_part2 _)).
  apply submseteq_app; [done|]. by apply submseteq_app.
Qed.

Lemma paper_is_drawn_from_the_collection_witness :
  questions (A (body_sections
    (body_of (assemble route_plan sample_pool sample_source).1)))
  ++ mixed_questions (B (body_sections
    (body_of (assemble route_plan sample_pool sample_source).1)))
  ++ questions (C (body_sections
    (body_of (assemble route_plan sample_pool sample_source).1)))
  ⊆+ sample_pool.
Proof.
  assert (Hs : sent (generate (Resolved sample_pool) sample_source).1
    = (200%nat,
       inr (body_of (assemble route_plan sample_pool sample_source).1)))
    by (apply sent_nonempty; discriminate).
  exact (paper_is_drawn_from_the_collection sample_pool sample_source _ Hs).
Defined.

(** X6.  The report never shows more than was wanted or than was there: each
    picked count is at most the wanted count of its request; section A and
    part 1 of section B together have at most [available.mark2] questions,
    part 2 at most [available.mark3], section C at most [available.mark5].
    So the shortage [wanted - picked] that the report lets one compute is
    never negative. *)
Theorem picked_within_wanted_and_available
    (allQuestions : list Question) (g : source) (b : body) :
  sent (generate (Resolved allQuestions) g).1 = (200%nat, inr b) →
  let picked := pickedCounts (body_report b) in
  let wanted := wanted (body_report b) in
  let available := available (body_report b) in
  Z.of_nat (of_sectionA picked) ≤ of_sectionA wanted ∧
  Z.of_nat (of_sectionB_part1 picked) ≤ of_sectionB_part1 wanted ∧
  Z.of_nat (of_sectionB_part2 picked) ≤ of_sectionB_part2 wanted ∧
  Z.of_nat (of_sectionC picked) ≤ of_sectionC wanted ∧
  (of_sectionA picked + of_sectionB_part1 picked ≤ mark2 available)%nat ∧
  (of_sectionB_part2 picked ≤ mark3 available)%nat ∧
  (of_sectionC picked ≤ mark5 available)%nat.
Proof.
  intros Hs. apply sent_200 in Hs as [_ ->]. cbn [body_of body_report].
  destruct (assemble_report route_plan allQuestions g) as (-> & -> & ->).
  cbn [of_sectionA of_sectionB_part1 of_sectionB_part2 of_sectionC
       mark2 mark3 mark5 route_plan sectionA_need sectionB_need_part1
       sectionB_need_part2 sectionC_need count].
  destruct (assemble_lengths_le route_plan allQuestions g)
    as (LA & LB1 & LB2 & LC).
  cbn [route_plan sectionA_need sectionB_need_part1 sectionB_need_part2
       sectionC_need count] in LA, LB1, LB2, LC.
  change (Z.to_nat (0 `max` 10)) with 10%nat in LA.
  change (Z.to_nat (0 `max` 5)) with 5%nat in LB1, LB2.
  change (Z.to_nat (0 `max` 7)) with 7%nat in LC.
  destruct (route_shares allQuestions g) as (H2 & H3 & H5).
  apply submseteq_length in H2, H3, H5. rewrite length_app in H2.
  repeat split; try done; lia.
Qed.

Lemma picked_within_wanted_and_available_witness :
  (of_sectionA (pickedCounts (body_report
     (body_of (assemble route_plan sample_pool sample_source).1)))
   + of_sectionB_part1 (pickedCounts (body_report
     (body_of (assemble route_plan sample_pool sample_source).1)))
   ≤ mark2 (available (body_report
     (body_of (assemble route_plan sample_pool sample_source).1))))%nat.
Proof.
  assert (Hs : sent (generate (Resolved sample_pool) sample_source).1
    = (200%nat,
       inr (body_of (assemble route_plan sample_pool sample_source).1)))
    by (apply sent_nonempty; discriminate).
  destruct (picked_within_wanted_and_available sample_pool sample_source
              _ Hs) as (_ & _ & _ & _ & H & _).
  exact H.
Defined.

(** X7.  After the four requests the set [usedIds] holds the identifiers it
    held before and the identifiers of the questions delivered, and nothing
    else; the draws still to come are those that were to come.  For any
    section definitions, bucket map and starting state. *)
Theorem used_ids_are_the_delivered_ids
    (p : plan) (qb : gmap Z (list Question)) (s : state) :
  usedIds (allocate p qb s).2 =
    usedIds s
    ∪ ids (of_sectionA (allocate p qb s).1)
    ∪ ids (of_sectionB_part1 (allocate p qb s).1)
    ∪ ids (of_sectionB_part2 (allocate p qb s).1)
    ∪ ids (of_sectionC (allocate p qb s).1) ∧
  draws (random (allocate p qb s).2) = draws (random s).
Proof.
  pose proof (used_before_B1 p qb s) as U1.
  pose proof (used_before_B2 p qb s) as U2.
  pose proof (used_before_C p qb s) as U3.
  rewrite allocate_run in *.
  cbn [fst snd of_sectionA of_sectionB_part1 of_sectionB_part2 of_sectionC]
    in *.
  split.
  - by rewrite pickUnique_used, U3, U2, U1.
  - unfold state_before_C, state_before_B2, state_before_B1.
    rewrite !pickUnique_run. cbn [snd random]. by rewrite !pickRandom_draws.
Qed.

(** X8.  [pickRandom] picks without replacement: what it returns, followed
    by some rest, is a rearrangement of the array, so that every element
    returned is an element of the array, as often at most as it occurs
    there.  It returns [min(max(0, n), length)] elements: nothing for
    [n <= 0], a rearrangement of the whole array when [n] is at least the
    length.  From an array without repetition it returns no element
    twice. *)
Theorem pickRandom_picks_without_replacement
    (T : Type) (array : list T) (n : Z) (g : source) :
  (∃ rest, (pickRandom array n g).1 ++ rest ≡ₚ array) ∧
  length (pickRandom array n g).1
    = (Z.to_nat (Z.max 0 n) `min` length array)%nat ∧
  (n ≤ 0 → (pickRandom array n g).1 = []) ∧
  (Z.of_nat (length array) ≤ n → (pickRandom array n g).1 ≡ₚ array) ∧
  (NoDup array → NoDup (pickRandom array n g).1).
Proof.
  destruct (pickRandom_prefix array n g) as [rest Hp].
  pose proof (pickRandom_length array n g) as Hl.
  split; [by exists rest|]. split; [done|]. split; [|split].
  - intros Hn. apply length_zero_iff_nil. rewrite Hl.
    replace (Z.to_nat (0 `max` n)) with 0%nat by lia. done.
  - intros Hn.
    assert (Hr : length rest = 0%nat).
    { apply Permutation_length in Hp. rewrite length_app in Hp.
      rewrite Hl in Hp. clear - Hp Hn.
      set (k := length array) in *. set (r := length rest) in *.
      clearbody k r. lia. }
    apply length_zero_iff_nil in Hr as ->. by rewrite app_nil_r in Hp.
  - intros Hnd. rewrite <- Hp in Hnd. by apply NoDup_app in Hnd as [? _].
Qed.

Lemma pickRandom_picks_without_replacement_witness :
  (pickRandom [1; 2; 3]%nat 5 sample_source).1 ≡ₚ [1; 2; 3]%nat ∧
  NoDup (pickRandom [1; 2; 3]%nat 5 sample_source).1 ∧
  (pickRandom [1; 2; 3]%nat (-2) sample_source).1 = [].
Proof.
  assert (Hnd : NoDup [1; 2; 3]%nat).
  { apply (bool_decide_unpack _). vm_compute. exact I. }
  destruct (pickRandom_picks_without_replacement nat [1; 2; 3]%nat 5
              sample_source) as (_ & _ & _ & Hall & Hno).
  destruct (pickRandom_picks_without_replacement nat [1; 2; 3]%nat (-2)
              sample_source) as (_ & _ & Hneg & _).
  split; [apply Hall; simpl; lia|]. split; [by apply Hno|].
  apply Hneg. lia.
Defined.

(** X9.  [pickRandom] takes one draw for each element of the array but the
    first, whatever [n] is, and none from an empty array: [shuffleArray]
    rearranges the whole array before the prefix is cut, also when [n] is 0
    or negative. *)
Theorem pickRandom_takes_length_minus_one_draws
    (T : Type) (array : list T) (n : Z) (g : source) :
  (pickRandom array n g).2 =
    {| draws := draws g; cursor := (cursor g + (length array - 1))%nat |} ∧
  (shuffleArray array g).2 =
    {| draws := draws g; cursor := (cursor g + (length array - 1))%nat |}.
Proof.
  split; [|apply shuffleArray_source].
  unfold pickRandom. case_bool_decide as Hlen.
  - rewrite Hlen. destruct g as [d c]. cbn. f_equal. lia.
  - unfold mbind, M_bind.
    pose proof (shuffleArray_source array g) as Hs.
    by destruct (shuffleArray array g) as [sh g'].
Qed.

(** X10.  Where the arrays live makes no difference to what is sent.  With
    the arrays in a store, copied by [slice], allocated by [filter] and
    swapped cell by cell as the source does, the route sends what it sends
    when arrays are values, and leaves the random source in the same state;
    a rejected query is answered 500 in both. *)
Theorem store_embedding_sends_the_same
    (allQuestions : list Question) (a : nat) (s : Heap.state) :
  Heap.arrays s !! a = Some allQuestions →
  sent (Heap.generate (Some a) s).1
    = sent (generate (Resolved allQuestions) (Heap.random s)).1 ∧
  Heap.random (Heap.generate (Some a) s).2
    = (generate (Resolved allQuestions) (Heap.random s)).2 ∧
  sent (Heap.generate None s).1 = sent (generate Rejected (Heap.random s)).1.
Proof.
  intros Hall. unfold Heap.generate, generate.
  destruct (heap_generate_with_sim route_plan a allQuestions s Hall)
    as [-> ->].
  done.
Qed.

Lemma store_embedding_sends_the_same_witness :
  sent (Heap.generate (Some 0%nat) (store_of sample_pool sample_source)).1
    = sent (generate (Resolved sample_pool) sample_source).1.
Proof.
  assert (H0 : Heap.arrays (store_of sample_pool sample_source) !! 0%nat
               = Some sample_pool) by reflexivity.
  destruct (store_embedding_sends_the_same sample_pool 0%nat
              (store_of sample_pool sample_source) H0) as (H & _).
  exact H.
Defined.

(** X11.  A request that asks for at least as many questions as its bucket
    has candidates takes them all, and a later request on the same bucket
    then gets nothing, whatever it asks for and whatever the identifiers
    are. *)
Theorem exhausted_bucket_gives_nothing
    (qb : gmap Z (list Question)) (mark c1 c2 : Z) (s : state) :
  Z.of_nat (length (candidates qb mark (usedIds s))) ≤ c1 →
  (pickUnique qb mark c1 s).1 ≡ₚ candidates qb mark (usedIds s) ∧
  (pickUnique qb mark c2 (pickUnique qb mark c1 s).2).1 = [].
Proof.
  intros Hc1.
  destruct (pickUnique_prefix qb mark c1 s) as [rest Hp].
  pose proof (pickUnique_length qb mark c1 s) as Hl.
  assert (Hr : rest = []).
  { apply length_zero_iff_nil.
    pose proof (Permutation_length Hp) as Hlen. rewrite length_app in Hlen.
    revert Hl Hlen Hc1.
    generalize (length (candidates qb mark (usedIds s))).
    generalize (length (pickUnique qb mark c1 s).1).
    generalize (length rest). clear. intros r n k. lia. }
  subst rest. split; [by rewrite app_nil_r in Hp|].
  apply length_zero_iff_nil. rewrite pickUnique_length, pickUnique_used.
  pose proof (candidates_after_pick_sub qb mark _ _ _ Hp) as Hsub.
  apply submseteq_length in Hsub. simpl in Hsub.
  revert Hsub. generalize (length (candidates qb mark
    (usedIds s ∪ ids (pickUnique qb mark c1 s).1))).
  clear. intros k Hk. lia.
Qed.

Lemma exhausted_bucket_gives_nothing_witness :
  (pickUnique (qByMarks sample_pool) 3 5
     (pickUnique (qByMarks sample_pool) 3 5 sample_state).2).1 = [].
Proof.
  apply (exhausted_bucket_gives_nothing (qByMarks sample_pool) 3 5 5
           sample_state).
  vm_compute. discriminate.
Defined.

(** X12.  Two requests on one bucket deliver, together, what one request
    for the sum of their counts would: on a bucket with distinct
    identifiers, requests for [c1] and then [c2] questions deliver
    [min(c1 + c2, candidates)] questions in all, the first one being served
    first. *)
Theorem two_requests_deliver_as_one
    (qb : gmap Z (list Question)) (mark c1 c2 : Z) (s : state) :
  NoDup (_id <$> default [] (qb !! mark)) →
  0 ≤ c1 → 0 ≤ c2 →
  let n := Z.of_nat (length (candidates qb mark (usedIds s))) in
  let first := (pickUnique qb mark c1 s).1 in
  let second := (pickUnique qb mark c2 (pickUnique qb mark c1 s).2).1 in
  Z.of_nat (length first) = c1 `min` n ∧
  Z.of_nat (length second) = c2 `min` (n - Z.of_nat (length first)) ∧
  Z.of_nat (length first + length second) = (c1 + c2) `min` n.
Proof.
  intros Hnd H1 H2 n first second. subst n first second.
  destruct (pickUnique_prefix qb mark c1 s) as [rest Hp].
  pose proof (pickUnique_length qb mark c1 s) as L1.
  pose proof (pickUnique_length qb mark c2 (pickUnique qb mark c1 s).2) as L2.
  rewrite pickUnique_used in L2.
  rewrite (candidates_after_pick qb mark _ _ rest Hnd Hp) in L2.
  pose proof (Permutation_length Hp) as Hlen. rewrite length_app in Hlen.
  revert L1 L2 Hlen.
  generalize (length (candidates qb mark (usedIds s))).
  generalize (length (pickUnique qb mark c2 (pickUnique qb mark c1 s).2).1).
  generalize (length (pickUnique qb mark c1 s).1).
  generalize (length rest). clear - H1 H2. intros r a b n L1 L2 Hlen.
  repeat split; lia.
Qed.

Lemma two_requests_deliver_as_one_witness :
  Z.of_nat
    (length (pickUnique (qByMarks sample_pool) 2 10 sample_state).1
     + length (pickUnique (qByMarks sample_pool) 2 5
         (pickUnique (qByMarks sample_pool) 2 10 sample_state).2).1)
  = (10 + 5) `min`
      Z.of_nat (length (candidates (qByMarks sample_pool) 2
                          (usedIds sample_state))).
Proof.
  assert (Hnd : NoDup (_id <$> default [] (qByMarks sample_pool !! 2))).
  { apply (bool_decide_unpack _). vm_compute. exact I. }
  destruct (two_requests_deliver_as_one (qByMarks sample_pool) 2 10 5
              sample_state Hnd) as (_ & _ & H); [lia..|].
  exact H.
Defined.

(** X13.  [pickUnique] never delivers a question whose identifier is already
    in [usedIds], and never one from outside the bucket asked for; every
    identifier it delivers is in [usedIds] afterwards, and no identifier
    leaves [usedIds]. *)
Theorem pickUnique_delivers_unused_questions_of_the_bucket
    (qb : gmap Z (list Question)) (mark count : Z) (s : state) :
  (∀ q, q ∈ (pickUnique qb mark count s).1 →
        q ∈ default [] (qb !! mark) ∧
        (_id q ∉ usedIds s) ∧
        _id q ∈ usedIds (pickUnique qb mark count s).2) ∧
  usedIds s ⊆ usedIds (pickUnique qb mark count s).2.
Proof.
  rewrite pickUnique_used. split.
  - intros q Hq. destruct (pickUnique_elem qb mark count s q Hq) as [Hb Hn].
    split; [done|]. split; [done|].
    apply elem_of_union. right. by apply elem_of_ids.
  - apply union_subseteq_l.
Qed.

Lemma pickUnique_delivers_unused_questions_of_the_bucket_witness :
  question "b01" 3
    ∈ (pickUnique (qByMarks sample_pool) 3 5 sample_state).1 ∧
  question "b01" 3 ∈ default [] (qByMarks sample_pool !! 3) ∧
  (_id (question "b01" 3) ∉ usedIds sample_state) ∧
  _id (question "b01" 3)
    ∈ usedIds (pickUnique (qByMarks sample_pool) 3 5 sample_state).2.
Proof.
  assert (Hq : question "b01" 3
    ∈ (pickUnique (qByMarks sample_pool) 3 5 sample_state).1).
  { apply (bool_decide_unpack _). vm_compute. exact I. }
  split; [exact Hq|].
  exact (proj1 (pickUnique_delivers_unused_questions_of_the_bucket
                  (qByMarks sample_pool) 3 5 sample_state) _ Hq).
Defined.
